(** * Claims Management System: the validating in-memory engine

    A shallow embedding of [ClaimsManagementSystem] as written in
    [SCMS_api.py] (the same class body is in
    [SCMS_Enhanced_business_rules.py]), and of the earlier variant of
    [create_claim] / [update_claim] in [SCMS_CRUD.py].

    Modelling decisions:
    - the three dicts are finite maps keyed by strings ([gmap string _]);
      the engine only ever stores an object under its own [id], never
      stores one object under two keys and never changes an [id], so a
      map of values describes the store; an in-place attribute assignment
      on a stored object is an overwrite of the entry of its key;
    - an operation is a function from the store to the store it leaves
      behind paired with either a value or the exception raised; the store
      that comes with an exception is the one the Python caller observes
      after catching it;
    - [datetime] is a naive timestamp counted in microseconds, so that
      [(a - b).days] is a floor division, as for Python's [timedelta];
    - amounts are rationals: the code only compares them, and every finite
      Python [float] or [int] is a rational (NaN and infinities are left
      out); what is stated of the stored amounts is stated with the
      comparisons of the code, which are all false of a NaN;
    - in the engine [str] is a sequence of 8-bit characters (code points
      below 256), on which the class [\d] of [re] is exactly [0-9]; the
      phone pattern is also given on sequences of arbitrary code points
      ([Unicode]), of which the former is the restriction;
    - [datetime.now()] is an explicit argument, one per read. *)

From Stdlib Require Import ZArith QArith String Ascii List Bool Lia.
From stdpp Require Import gmap strings list fin_maps.

Close Scope Q_scope.
Local Open Scope string_scope.
Local Open Scope nat_scope.

(** ** Time *)

Definition datetime := Z.

Definition us_per_day : Z := 86400000000.

(** [days a b] is [(a - b).days]. *)
Definition days (a b : datetime) : Z := ((a - b) `div` us_per_day)%Z.

(** [midnight d] is [datetime(y, m, d)] for the calendar day numbered [d]:
    what [parse_date] builds. *)
Definition midnight (d : Z) : datetime := (d * us_per_day)%Z.

(** ** Entities *)

Inductive ClaimStatus := SUBMITTED | UNDER_REVIEW | APPROVED | REJECTED | CLOSED.

Module Policyholder.
Record t := mk {
  id : string;
  name : string;
  contact_number : string;
  email : string;
  date_of_birth : datetime }.

Definition set_name (v : string) (p : t) : t :=
  mk (id p) v (contact_number p) (email p) (date_of_birth p).
Definition set_contact_number (v : string) (p : t) : t :=
  mk (id p) (name p) v (email p) (date_of_birth p).
Definition set_email (v : string) (p : t) : t :=
  mk (id p) (name p) (contact_number p) v (date_of_birth p).
Definition set_date_of_birth (v : datetime) (p : t) : t :=
  mk (id p) (name p) (contact_number p) (email p) v.
End Policyholder.

Module Policy.
Record t := mk {
  id : string;
  policyholder_id : string;
  type : string;
  start_date : datetime;
  end_date : datetime;
  coverage_amount : Q;
  premium : Q }.

Definition set_type (v : string) (p : t) : t :=
  mk (id p) (policyholder_id p) v (start_date p) (end_date p)
     (coverage_amount p) (premium p).
Definition set_start_date (v : datetime) (p : t) : t :=
  mk (id p) (policyholder_id p) (type p) v (end_date p)
     (coverage_amount p) (premium p).
Definition set_end_date (v : datetime) (p : t) : t :=
  mk (id p) (policyholder_id p) (type p) (start_date p) v
     (coverage_amount p) (premium p).
Definition set_coverage_amount (v : Q) (p : t) : t :=
  mk (id p) (policyholder_id p) (type p) (start_date p) (end_date p)
     v (premium p).
Definition set_premium (v : Q) (p : t) : t :=
  mk (id p) (policyholder_id p) (type p) (start_date p) (end_date p)
     (coverage_amount p) v.
End Policy.

Module Claim.
Record t := mk {
  id : string;
  policy_id : string;
  date_of_incident : datetime;
  description : string;
  amount : Q;
  status : ClaimStatus;
  date_submitted : datetime }.

Definition set_description (v : string) (c : t) : t :=
  mk (id c) (policy_id c) (date_of_incident c) v (amount c) (status c)
     (date_submitted c).
Definition set_amount (v : Q) (c : t) : t :=
  mk (id c) (policy_id c) (date_of_incident c) (description c) v (status c)
     (date_submitted c).
Definition set_status (v : ClaimStatus) (c : t) : t :=
  mk (id c) (policy_id c) (date_of_incident c) (description c) (amount c) v
     (date_submitted c).
End Claim.

(** ** Exceptions

    Each constructor of [message] stands for the text of one [raise]
    statement. *)

Inductive message :=
| PolicyholderExists (id : string)    (* "Policyholder with ID {id} already exists" *)
| PolicyholderMissing (id : string)   (* "Policyholder with ID {id} does not exist" *)
| PolicyExists (id : string)          (* "Policy with ID {id} already exists" *)
| PolicyMissing (id : string)         (* "Policy with ID {id} does not exist" *)
| ClaimExists (id : string)           (* "Claim with ID {id} already exists" *)
| ClaimMissing (id : string)          (* "Claim with ID {id} does not exist" *)
| StartNotBeforeEnd                   (* "Policy start date must be before end date" *)
| CoverageNotPositive                 (* "Coverage amount must be positive" *)
| PremiumNotPositive                  (* "Premium must be positive" *)
| UnderageAtStart                     (* "Policyholder must be at least 18 years old at policy start date" *)
| IncidentOutsidePeriod               (* "Claim date must be within policy period" *)
| AmountOutOfRange (coverage : Q)     (* "Claim amount must be positive and not exceed policy coverage of {coverage}" *)
| SubmittedBeforeIncident             (* "Claim submission date cannot be earlier than the incident date" *)
| LateSubmission                      (* "Claims must be submitted within 30 days of the incident" *)
| InvalidEmail                        (* "Invalid email format" *)
| InvalidPhone                        (* "Invalid phone number format" *)
| DobInFuture                         (* "Date of birth cannot be in the future" *)
| Underage                            (* "Policyholder must be at least 18 years old" *)
| ClosedClaim.                        (* "Cannot update a closed claim" *)

Inductive exn :=
| ValidationError (msg : message)
| BusinessRuleViolation (msg : message)
| KeyError (key : string).

Inductive result (A : Type) :=
| Ok (a : A)
| Raise (e : exn).
Arguments Ok {A} a.
Arguments Raise {A} e.

Definition is_ok {A} (r : result A) : bool :=
  match r with Ok _ => true | Raise _ => false end.

(** ** Comparisons on amounts

    [<=] and [>] on numbers.  On a NaN, which is not among the amounts
    here, both are false in Python whatever the other side. *)

Definition Qleb (x y : Q) : bool := Qle_bool x y.   (* x <= y *)
Definition Qgtb (x y : Q) : bool := negb (Qle_bool x y).   (* x > y *)

(** ** Truthiness of optional arguments

    [if name:] holds for a [str] that is neither [None] nor empty. *)

Definition truthy (o : option string) : option string :=
  match o with
  | Some "" => None
  | _ => o
  end.

(** ** The fragment of [re] the validators use

    A pattern is a sequence of quantified character classes, possibly
    with the end anchor.  [re.match] anchors at the start only; matching
    backtracks over every repetition count. *)

Inductive atom :=
| Class (c : ascii → bool) (lo : nat) (hi : option nat)   (* c{lo,hi}; no upper bound when [hi] is [None] *)
| Dollar.                                                 (* $ *)

Definition pattern := list atom.

Definition lit (a : ascii) : atom := Class (Ascii.eqb a) 1 (Some 1).
Definition opt (a : ascii) : atom := Class (Ascii.eqb a) 0 (Some 1).
Definition plus (c : ascii → bool) : atom := Class c 1 None.

(** [$] without [re.MULTILINE]: at the end of the string, or just before
    a newline that ends the string. *)
Definition at_end (s : string) : bool :=
  match s with
  | "" => true
  | String a "" => Ascii.eqb a "010"
  | _ => false
  end.

Fixpoint rep (c : ascii → bool) (k : string → bool)
    (lo : nat) (hi : option nat) (s : string) : bool :=
  match lo with O => k s | S _ => false end
  || match s with
     | "" => false
     | String a s' =>
         c a &&
         match hi with
         | Some O => false
         | Some (S h) => rep c k (pred lo) (Some h) s'
         | None => rep c k (pred lo) None s'
         end
     end.

Fixpoint matches (p : pattern) (s : string) : bool :=
  match p with
  | [] => true
  | Class c lo hi :: p' => rep c (matches p') lo hi s
  | Dollar :: p' => at_end s && matches p' s
  end.

(** [re_match p s] tells whether [re.match(p, s)] is a match object. *)
Definition re_match (p : pattern) (s : string) : bool := matches p s.

Definition not_at (a : ascii) : bool := negb (Ascii.eqb a "@").

Definition is_digit (a : ascii) : bool :=
  let n := nat_of_ascii a in (48 <=? n)%nat && (n <=? 57)%nat.

(** r"[^@]+@[^@]+\.[^@]+" *)
Definition email_re : pattern :=
  [plus not_at; lit "@"; plus not_at; lit "."; plus not_at].

(** r"^\+?1?\d{9,15}$" (the leading [^] adds nothing under [re.match]) *)
Definition phone_re : pattern :=
  [opt "+"; opt "1"; Class is_digit 9 (Some 15); Dollar].

(** ** The monad of engine operations

    A method call takes the store [St] to the store it leaves behind and
    either returns or raises. *)

Definition M (St A : Type) : Type := St → St * result A.

Section Monad.
Context {St : Type}.

Definition ret {A} (a : A) : M St A := λ s, (s, Ok a).

Definition bind {A B} (m : M St A) (f : A → M St B) : M St B :=
  λ s, match m s with
       | (s', Ok a) => f a s'
       | (s', Raise e) => (s', Raise e)
       end.

Definition raise {A} (e : exn) : M St A := λ s, (s, Raise e).

Definition gets {A} (f : St → A) : M St A := λ s, (s, Ok (f s)).

Definition modify (f : St → St) : M St unit := λ s, (f s, Ok tt).

(** [if b: raise e] *)
Definition raise_if (b : bool) (e : exn) : M St unit :=
  if b then raise e else ret tt.

(** [if o: f(o)] for an argument whose truthiness has been decided. *)
Definition when_some {A} (o : option A) (f : A → M St unit) : M St unit :=
  match o with
  | Some a => f a
  | None => ret tt
  end.

(** [d[k]] raises [KeyError] on an absent key. *)
Definition subscript {V} (d : St → gmap string V) (k : string) : M St V :=
  λ s, match d s !! k with
       | Some v => (s, Ok v)
       | None => (s, Raise (KeyError k))
       end.

(** [k in d] *)
Definition contains {V} (d : St → gmap string V) (k : string) : M St bool :=
  gets (λ s, bool_decide (is_Some (d s !! k))).
End Monad.

Notation "x ⇐ m ; k" := (bind m (λ x, k))
  (at level 100, m at next level, right associativity, only parsing).
Notation "m ;;; k" := (bind m (λ _, k))
  (at level 100, right associativity, only parsing).

(** [for x in l: f(x)] *)
Fixpoint for_each {St A} (l : list A) (f : A → M St unit) : M St unit :=
  match l with
  | [] => ret tt
  | x :: l' => f x ;;; for_each l' f
  end.

(** [[k for k, v in d.items() if p(v)]].  The keys come in the order of
    the finite map, not in Python's insertion order; the two loops that
    run over such a list are shown below to leave a store that does not
    depend on the order. *)
Definition keys_where {V} (p : V → bool) (m : gmap string V) : list string :=
  (filter (λ kv, p kv.2 = true) (map_to_list m)).*1.

(** ** The store ([SCMS_api.py], lines 49-53) *)

Record CMS := mkCMS {
  policyholders : gmap string Policyholder.t;
  policies : gmap string Policy.t;
  claims : gmap string Claim.t }.

Definition empty_CMS : CMS := mkCMS ∅ ∅ ∅.

Definition set_policyholders (m : gmap string Policyholder.t) (s : CMS) : CMS :=
  mkCMS m (policies s) (claims s).
Definition set_policies (m : gmap string Policy.t) (s : CMS) : CMS :=
  mkCMS (policyholders s) m (claims s).
Definition set_claims (m : gmap string Claim.t) (s : CMS) : CMS :=
  mkCMS (policyholders s) (policies s) m.

(** The engine's methods run in [E]. *)
Abbreviation E := (M CMS).

(** An attribute assignment [obj.attr = v] on the object stored under
    [key]: the store sees it at once. *)
Definition setattr_policyholder (key : string)
    (f : Policyholder.t → Policyholder.t) : E unit :=
  modify (λ s, set_policyholders (alter f key (policyholders s)) s).
Definition setattr_policy (key : string) (f : Policy.t → Policy.t) : E unit :=
  modify (λ s, set_policies (alter f key (policies s)) s).
Definition setattr_claim (key : string) (f : Claim.t → Claim.t) : E unit :=
  modify (λ s, set_claims (alter f key (claims s)) s).

(** ** Validation methods ([SCMS_api.py], lines 157-201) *)

Definition _validate_email {St} (email : string) : M St unit :=
  raise_if (negb (re_match email_re email)) (ValidationError InvalidEmail).

Definition _validate_phone_number {St} (phone : string) : M St unit :=
  raise_if (negb (re_match phone_re phone)) (ValidationError InvalidPhone).

(** [now] and [now'] are the two successive readings of [datetime.now()]. *)
Definition _validate_date_of_birth (now now' : datetime)
    (date_of_birth : datetime) : E unit :=
  raise_if (now <? date_of_birth)%Z (ValidationError DobInFuture) ;;;
  raise_if (days now' date_of_birth <? 18 * 365)%Z
    (BusinessRuleViolation Underage).

Definition _validate_policyholder (now now' : datetime)
    (policyholder : Policyholder.t) : E unit :=
  _validate_email (Policyholder.email policyholder) ;;;
  _validate_phone_number (Policyholder.contact_number policyholder) ;;;
  _validate_date_of_birth now now' (Policyholder.date_of_birth policyholder).

Definition _validate_policy (policy : Policy.t) : E unit :=
  known ⇐ contains policyholders (Policy.policyholder_id policy);
  raise_if (negb known)
    (ValidationError (PolicyholderMissing (Policy.policyholder_id policy))) ;;;
  raise_if (Policy.end_date policy <=? Policy.start_date policy)%Z
    (ValidationError StartNotBeforeEnd) ;;;
  raise_if (Qleb (Policy.coverage_amount policy) 0)
    (ValidationError CoverageNotPositive) ;;;
  raise_if (Qleb (Policy.premium policy) 0)
    (ValidationError PremiumNotPositive) ;;;
  policyholder ⇐ subscript policyholders (Policy.policyholder_id policy);
  raise_if (days (Policy.start_date policy)
                 (Policyholder.date_of_birth policyholder) <? 18 * 365)%Z
    (BusinessRuleViolation UnderageAtStart).

Definition _validate_claim (claim : Claim.t) : E unit :=
  known ⇐ contains policies (Claim.policy_id claim);
  raise_if (negb known)
    (ValidationError (PolicyMissing (Claim.policy_id claim))) ;;;
  policy ⇐ subscript policies (Claim.policy_id claim);
  raise_if ((Claim.date_of_incident claim <? Policy.start_date policy)%Z
            || (Policy.end_date policy <? Claim.date_of_incident claim)%Z)
    (ValidationError IncidentOutsidePeriod) ;;;
  raise_if (Qleb (Claim.amount claim) 0
            || Qgtb (Claim.amount claim) (Policy.coverage_amount policy))
    (ValidationError (AmountOutOfRange (Policy.coverage_amount policy))) ;;;
  raise_if (Claim.date_submitted claim <? Claim.date_of_incident claim)%Z
    (ValidationError SubmittedBeforeIncident) ;;;
  raise_if (30 <? days (Claim.date_submitted claim)
                       (Claim.date_of_incident claim))%Z
    (BusinessRuleViolation LateSubmission).

(** ** Claim operations ([SCMS_api.py], lines 129-155) *)

Definition create_claim (claim : Claim.t) : E unit :=
  _validate_claim claim ;;;
  dup ⇐ contains claims (Claim.id claim);
  raise_if dup (ValidationError (ClaimExists (Claim.id claim))) ;;;
  modify (λ s, set_claims (<[Claim.id claim := claim]> (claims s)) s).

Definition get_claim (claim_id : string) (s : CMS) : option Claim.t :=
  claims s !! claim_id.

(** [claim] is a reference to the stored object: the three assignments
    write to the store, and [_validate_claim] then reads the object as
    it stands. *)
Definition update_claim (claim_id : string) (description : option string)
    (amount : option Q) (status : option ClaimStatus) : E unit :=
  known ⇐ contains claims claim_id;
  raise_if (negb known) (ValidationError (ClaimMissing claim_id)) ;;;
  when_some (truthy description)
    (λ v, setattr_claim claim_id (Claim.set_description v)) ;;;
  when_some amount (λ v, setattr_claim claim_id (Claim.set_amount v)) ;;;
  when_some status (λ v, setattr_claim claim_id (Claim.set_status v)) ;;;
  claim ⇐ subscript claims claim_id;
  _validate_claim claim.

Definition delete_claim (claim_id : string) : E unit :=
  known ⇐ contains claims claim_id;
  raise_if (negb known) (ValidationError (ClaimMissing claim_id)) ;;;
  modify (λ s, set_claims (delete claim_id (claims s)) s).

(** ** Policy operations ([SCMS_api.py], lines 92-127) *)

Definition create_policy (policy : Policy.t) : E unit :=
  _validate_policy policy ;;;
  dup ⇐ contains policies (Policy.id policy);
  raise_if dup (ValidationError (PolicyExists (Policy.id policy))) ;;;
  modify (λ s, set_policies (<[Policy.id policy := policy]> (policies s)) s).

Definition get_policy (policy_id : string) (s : CMS) : option Policy.t :=
  policies s !! policy_id.

Definition update_policy (policy_id : string) (type : option string)
    (start_date end_date : option datetime)
    (coverage_amount premium : option Q) : E unit :=
  known ⇐ contains policies policy_id;
  raise_if (negb known) (ValidationError (PolicyMissing policy_id)) ;;;
  when_some (truthy type)
    (λ v, setattr_policy policy_id (Policy.set_type v)) ;;;
  when_some start_date
    (λ v, setattr_policy policy_id (Policy.set_start_date v)) ;;;
  when_some end_date
    (λ v, setattr_policy policy_id (Policy.set_end_date v)) ;;;
  when_some coverage_amount
    (λ v, setattr_policy policy_id (Policy.set_coverage_amount v)) ;;;
  when_some premium
    (λ v, setattr_policy policy_id (Policy.set_premium v)) ;;;
  policy ⇐ subscript policies policy_id;
  _validate_policy policy.

Definition delete_policy (policy_id : string) : E unit :=
  known ⇐ contains policies policy_id;
  raise_if (negb known) (ValidationError (PolicyMissing policy_id)) ;;;
  modify (λ s, set_policies (delete policy_id (policies s)) s) ;;;
  claims_to_delete ⇐
    gets (λ s, keys_where
                 (λ claim, String.eqb (Claim.policy_id claim) policy_id)
                 (claims s));
  for_each claims_to_delete delete_claim.

(** ** Policyholder operations ([SCMS_api.py], lines 55-90) *)

Definition create_policyholder (now now' : datetime)
    (policyholder : Policyholder.t) : E unit :=
  _validate_policyholder now now' policyholder ;;;
  dup ⇐ contains policyholders (Policyholder.id policyholder);
  raise_if dup
    (ValidationError (PolicyholderExists (Policyholder.id policyholder))) ;;;
  modify (λ s, set_policyholders
                 (<[Policyholder.id policyholder := policyholder]>
                    (policyholders s)) s).

Definition get_policyholder (policyholder_id : string) (s : CMS)
    : option Policyholder.t :=
  policyholders s !! policyholder_id.

Definition update_policyholder (now now' : datetime)
    (policyholder_id : string) (name contact_number email : option string)
    (date_of_birth : option datetime) : E unit :=
  known ⇐ contains policyholders policyholder_id;
  raise_if (negb known)
    (ValidationError (PolicyholderMissing policyholder_id)) ;;;
  when_some (truthy name)
    (λ v, setattr_policyholder policyholder_id (Policyholder.set_name v)) ;;;
  when_some (truthy contact_number)
    (λ v, _validate_phone_number v ;;;
          setattr_policyholder policyholder_id
            (Policyholder.set_contact_number v)) ;;;
  when_some (truthy email)
    (λ v, _validate_email v ;;;
          setattr_policyholder policyholder_id (Policyholder.set_email v)) ;;;
  when_some date_of_birth
    (λ v, _validate_date_of_birth now now' v ;;;
          setattr_policyholder policyholder_id
            (Policyholder.set_date_of_birth v)).

Definition delete_policyholder (policyholder_id : string) : E unit :=
  known ⇐ contains policyholders policyholder_id;
  raise_if (negb known)
    (ValidationError (PolicyholderMissing policyholder_id)) ;;;
  modify (λ s, set_policyholders
                 (delete policyholder_id (policyholders s)) s) ;;;
  policies_to_delete ⇐
    gets (λ s, keys_where
                 (λ policy,
                    String.eqb (Policy.policyholder_id policy) policyholder_id)
                 (policies s));
  for_each policies_to_delete delete_policy.

(** ** Sequences of engine calls *)

Inductive op :=
| CreatePolicyholder (now now' : datetime) (policyholder : Policyholder.t)
| UpdatePolicyholder (now now' : datetime) (policyholder_id : string)
    (name contact_number email : option string)
    (date_of_birth : option datetime)
| DeletePolicyholder (policyholder_id : string)
| CreatePolicy (policy : Policy.t)
| UpdatePolicy (policy_id : string) (type : option string)
    (start_date end_date : option datetime)
    (coverage_amount premium : option Q)
| DeletePolicy (policy_id : string)
| CreateClaim (claim : Claim.t)
| UpdateClaim (claim_id : string) (description : option string)
    (amount : option Q) (status : option ClaimStatus)
| DeleteClaim (claim_id : string).

Definition run (o : op) : E unit :=
  match o with
  | CreatePolicyholder now now' p => create_policyholder now now' p
  | UpdatePolicyholder now now' i n c e d =>
      update_policyholder now now' i n c e d
  | DeletePolicyholder i => delete_policyholder i
  | CreatePolicy p => create_policy p
  | UpdatePolicy i t s e c p => update_policy i t s e c p
  | DeletePolicy i => delete_policy i
  | CreateClaim c => create_claim c
  | UpdateClaim i d a st => update_claim i d a st
  | DeleteClaim i => delete_claim i
  end.

(** The store after a call, whether it returned or raised. *)
Definition after (o : op) (s : CMS) : CMS := (run o s).1.

(** The outcome of a call. *)
Definition outcome (o : op) (s : CMS) : result unit := (run o s).2.

(** The store after a sequence of calls, each outcome caught by the
    caller. *)
Definition exec (l : list op) (s : CMS) : CMS := foldl (λ s o, after o s) s l.

(** ** The earlier engine ([SCMS_CRUD.py])

    Its policyholders have no date of birth and its policies no premium;
    claims are the same dataclass.  The two creations that set a store up
    and the two claim methods that the later engine rewrote are embedded. *)

Module CRUD.

Module Policyholder.
Record t := mk {
  id : string;
  name : string;
  contact_number : string;
  email : string }.
End Policyholder.

Module Policy.
Record t := mk {
  id : string;
  policyholder_id : string;
  type : string;
  start_date : datetime;
  end_date : datetime;
  coverage_amount : Q }.
End Policy.

Record CMS := mkCMS {
  policyholders : gmap string Policyholder.t;
  policies : gmap string Policy.t;
  claims : gmap string Claim.t }.

Definition empty_CMS : CMS := mkCMS ∅ ∅ ∅.

Definition set_policyholders (m : gmap string Policyholder.t) (s : CMS)
    : CMS :=
  mkCMS m (policies s) (claims s).
Definition set_policies (m : gmap string Policy.t) (s : CMS) : CMS :=
  mkCMS (policyholders s) m (claims s).
Definition set_claims (m : gmap string Claim.t) (s : CMS) : CMS :=
  mkCMS (policyholders s) (policies s) m.

(** [SCMS_CRUD.py], lines 51-56 *)
Definition create_policyholder (policyholder : Policyholder.t)
    : M CMS unit :=
  _validate_email (Policyholder.email policyholder) ;;;
  _validate_phone_number (Policyholder.contact_number policyholder) ;;;
  dup ⇐ contains policyholders (Policyholder.id policyholder);
  raise_if dup
    (ValidationError (PolicyholderExists (Policyholder.id policyholder))) ;;;
  modify (λ s, set_policyholders
                 (<[Policyholder.id policyholder := policyholder]>
                    (policyholders s)) s).

(** [SCMS_CRUD.py], lines 85-94 *)
Definition create_policy (policy : Policy.t) : M CMS unit :=
  known ⇐ contains policyholders (Policy.policyholder_id policy);
  raise_if (negb known)
    (ValidationError
       (PolicyholderMissing (Policy.policyholder_id policy))) ;;;
  dup ⇐ contains policies (Policy.id policy);
  raise_if dup (ValidationError (PolicyExists (Policy.id policy))) ;;;
  raise_if (Policy.end_date policy <=? Policy.start_date policy)%Z
    (ValidationError StartNotBeforeEnd) ;;;
  raise_if (Qleb (Policy.coverage_amount policy) 0)
    (ValidationError CoverageNotPositive) ;;;
  modify (λ s, set_policies (<[Policy.id policy := policy]> (policies s)) s).

Definition setattr_claim (key : string) (f : Claim.t → Claim.t)
    : M CMS unit :=
  modify (λ s, set_claims (alter f key (claims s)) s).

Definition status_eqb (a b : ClaimStatus) : bool :=
  match a, b with
  | SUBMITTED, SUBMITTED | UNDER_REVIEW, UNDER_REVIEW
  | APPROVED, APPROVED | REJECTED, REJECTED | CLOSED, CLOSED => true
  | _, _ => false
  end.

(** [SCMS_CRUD.py], lines 128-138 *)
Definition create_claim (claim : Claim.t) : M CMS unit :=
  known ⇐ contains policies (Claim.policy_id claim);
  raise_if (negb known)
    (ValidationError (PolicyMissing (Claim.policy_id claim))) ;;;
  dup ⇐ contains claims (Claim.id claim);
  raise_if dup (ValidationError (ClaimExists (Claim.id claim))) ;;;
  policy ⇐ subscript policies (Claim.policy_id claim);
  raise_if ((Claim.date_of_incident claim <? Policy.start_date policy)%Z
            || (Policy.end_date policy <? Claim.date_of_incident claim)%Z)
    (ValidationError IncidentOutsidePeriod) ;;;
  raise_if (Qleb (Claim.amount claim) 0
            || Qgtb (Claim.amount claim) (Policy.coverage_amount policy))
    (ValidationError (AmountOutOfRange (Policy.coverage_amount policy))) ;;;
  modify (λ s, set_claims (<[Claim.id claim := claim]> (claims s)) s).

(** [SCMS_CRUD.py], lines 143-158 *)
Definition update_claim (claim_id : string) (description : option string)
    (amount : option Q) (status : option ClaimStatus) : M CMS unit :=
  known ⇐ contains claims claim_id;
  raise_if (negb known) (ValidationError (ClaimMissing claim_id)) ;;;
  when_some (truthy description)
    (λ v, setattr_claim claim_id (Claim.set_description v)) ;;;
  when_some amount
    (λ v, claim ⇐ subscript claims claim_id;
          policy ⇐ subscript policies (Claim.policy_id claim);
          raise_if (Qleb v 0 || Qgtb v (Policy.coverage_amount policy))
            (ValidationError
               (AmountOutOfRange (Policy.coverage_amount policy))) ;;;
          setattr_claim claim_id (Claim.set_amount v)) ;;;
  when_some status
    (λ v, claim ⇐ subscript claims claim_id;
          raise_if (status_eqb (Claim.status claim) CLOSED)
            (ValidationError ClosedClaim) ;;;
          setattr_claim claim_id (Claim.set_status v)).

(** The rest of the earlier engine. *)

Definition set_policyholder_name (v : string) (p : Policyholder.t)
    : Policyholder.t :=
  Policyholder.mk (Policyholder.id p) v (Policyholder.contact_number p)
    (Policyholder.email p).
Definition set_policyholder_contact_number (v : string) (p : Policyholder.t)
    : Policyholder.t :=
  Policyholder.mk (Policyholder.id p) (Policyholder.name p) v
    (Policyholder.email p).
Definition set_policyholder_email (v : string) (p : Policyholder.t)
    : Policyholder.t :=
  Policyholder.mk (Policyholder.id p) (Policyholder.name p)
    (Policyholder.contact_number p) v.

Definition set_policy_type (v : string) (p : Policy.t) : Policy.t :=
  Policy.mk (Policy.id p) (Policy.policyholder_id p) v (Policy.start_date p)
    (Policy.end_date p) (Policy.coverage_amount p).
Definition set_policy_start_date (v : datetime) (p : Policy.t) : Policy.t :=
  Policy.mk (Policy.id p) (Policy.policyholder_id p) (Policy.type p) v
    (Policy.end_date p) (Policy.coverage_amount p).
Definition set_policy_end_date (v : datetime) (p : Policy.t) : Policy.t :=
  Policy.mk (Policy.id p) (Policy.policyholder_id p) (Policy.type p)
    (Policy.start_date p) v (Policy.coverage_amount p).
Definition set_policy_coverage_amount (v : Q) (p : Policy.t) : Policy.t :=
  Policy.mk (Policy.id p) (Policy.policyholder_id p) (Policy.type p)
    (Policy.start_date p) (Policy.end_date p) v.

Definition setattr_policyholder (key : string)
    (f : Policyholder.t → Policyholder.t) : M CMS unit :=
  modify (λ s, set_policyholders (alter f key (policyholders s)) s).
Definition setattr_policy (key : string) (f : Policy.t → Policy.t)
    : M CMS unit :=
  modify (λ s, set_policies (alter f key (policies s)) s).

(** [SCMS_CRUD.py], lines 58-59, 96-97, 140-141 *)
Definition get_policyholder (policyholder_id : string) (s : CMS)
    : option Policyholder.t :=
  policyholders s !! policyholder_id.
Definition get_policy (policy_id : string) (s : CMS) : option Policy.t :=
  policies s !! policy_id.
Definition get_claim (claim_id : string) (s : CMS) : option Claim.t :=
  claims s !! claim_id.

(** [SCMS_CRUD.py], lines 61-73 *)
Definition update_policyholder (policyholder_id : string)
    (name contact_number email : option string) : M CMS unit :=
  known ⇐ contains policyholders policyholder_id;
  raise_if (negb known)
    (ValidationError (PolicyholderMissing policyholder_id)) ;;;
  when_some (truthy name)
    (λ v, setattr_policyholder policyholder_id (set_policyholder_name v)) ;;;
  when_some (truthy contact_number)
    (λ v, _validate_phone_number v ;;;
          setattr_policyholder policyholder_id
            (set_policyholder_contact_number v)) ;;;
  when_some (truthy email)
    (λ v, _validate_email v ;;;
          setattr_policyholder policyholder_id (set_policyholder_email v)).

(** [SCMS_CRUD.py], lines 160-163 *)
Definition delete_claim (claim_id : string) : M CMS unit :=
  known ⇐ contains claims claim_id;
  raise_if (negb known) (ValidationError (ClaimMissing claim_id)) ;;;
  modify (λ s, set_claims (delete claim_id (claims s)) s).

(** [SCMS_CRUD.py], lines 118-125 *)
Definition delete_policy (policy_id : string) : M CMS unit :=
  known ⇐ contains policies policy_id;
  raise_if (negb known) (ValidationError (PolicyMissing policy_id)) ;;;
  modify (λ s, set_policies (delete policy_id (policies s)) s) ;;;
  claims_to_delete ⇐
    gets (λ s, keys_where
                 (λ claim, String.eqb (Claim.policy_id claim) policy_id)
                 (claims s));
  for_each claims_to_delete delete_claim.

(** [SCMS_CRUD.py], lines 75-82 *)
Definition delete_policyholder (policyholder_id : string) : M CMS unit :=
  known ⇐ contains policyholders policyholder_id;
  raise_if (negb known)
    (ValidationError (PolicyholderMissing policyholder_id)) ;;;
  modify (λ s, set_policyholders
                 (delete policyholder_id (policyholders s)) s) ;;;
  policies_to_delete ⇐
    gets (λ s, keys_where
                 (λ policy,
                    String.eqb (Policy.policyholder_id policy) policyholder_id)
                 (policies s));
  for_each policies_to_delete delete_policy.

(** [SCMS_CRUD.py], lines 99-116: the coverage is checked before it is
    assigned, the dates after. *)
Definition update_policy (policy_id : string) (type : option string)
    (start_date end_date : option datetime) (coverage_amount : option Q)
    : M CMS unit :=
  known ⇐ contains policies policy_id;
  raise_if (negb known) (ValidationError (PolicyMissing policy_id)) ;;;
  when_some (truthy type)
    (λ v, setattr_policy policy_id (set_policy_type v)) ;;;
  when_some start_date
    (λ v, setattr_policy policy_id (set_policy_start_date v)) ;;;
  when_some end_date
    (λ v, setattr_policy policy_id (set_policy_end_date v)) ;;;
  when_some coverage_amount
    (λ v, raise_if (Qleb v 0) (ValidationError CoverageNotPositive) ;;;
          setattr_policy policy_id (set_policy_coverage_amount v)) ;;;
  policy ⇐ subscript policies policy_id;
  raise_if (Policy.end_date policy <=? Policy.start_date policy)%Z
    (ValidationError StartNotBeforeEnd).

(** Sequences of calls to the earlier engine. *)
Inductive op :=
| CreatePolicyholder (policyholder : Policyholder.t)
| UpdatePolicyholder (policyholder_id : string)
    (name contact_number email : option string)
| DeletePolicyholder (policyholder_id : string)
| CreatePolicy (policy : Policy.t)
| UpdatePolicy (policy_id : string) (type : option string)
    (start_date end_date : option datetime) (coverage_amount : option Q)
| DeletePolicy (policy_id : string)
| CreateClaim (claim : Claim.t)
| UpdateClaim (claim_id : string) (description : option string)
    (amount : option Q) (status : option ClaimStatus)
| DeleteClaim (claim_id : string).

Definition run (o : op) : M CMS unit :=
  match o with
  | CreatePolicyholder p => create_policyholder p
  | UpdatePolicyholder i n c e => update_policyholder i n c e
  | DeletePolicyholder i => delete_policyholder i
  | CreatePolicy p => create_policy p
  | UpdatePolicy i t s e c => update_policy i t s e c
  | DeletePolicy i => delete_policy i
  | CreateClaim c => create_claim c
  | UpdateClaim i d a st => update_claim i d a st
  | DeleteClaim i => delete_claim i
  end.

Definition after (o : op) (s : CMS) : CMS := (run o s).1.

Definition exec (l : list op) (s : CMS) : CMS := foldl (λ s o, after o s) s l.

(** What every stored record of the earlier engine satisfies: the two
    patterns match the email and the contact number of a holder, and the
    tests [coverage_amount <= 0] and [amount <= 0], which guard the
    assignments, are false of a stored policy and of a stored claim. *)
Definition sound (s : CMS) : Prop :=
  (∀ k h, policyholders s !! k = Some h →
     re_match email_re (Policyholder.email h) = true
     ∧ re_match phone_re (Policyholder.contact_number h) = true)
  ∧ (∀ k p, policies s !! k = Some p →
       Qleb (Policy.coverage_amount p) 0 = false)
  ∧ (∀ k c, claims s !! k = Some c → Qleb (Claim.amount c) 0 = false).

End CRUD.

(** ** Shapes of strings *)

Fixpoint all (c : ascii → bool) (s : string) : bool :=
  match s with
  | "" => true
  | String a s' => c a && all c s'
  end.

Fixpoint count_char (a : ascii) (s : string) : nat :=
  match s with
  | "" => 0
  | String b s' => (if Ascii.eqb a b then 1 else 0) + count_char a s'
  end.

(** The part of [s] before its first '@', and the part after it. *)
Fixpoint before_at (s : string) : string :=
  match s with
  | "" => ""
  | String a s' => if Ascii.eqb a "@" then "" else String a (before_at s')
  end.

Fixpoint after_at (s : string) : string :=
  match s with
  | "" => ""
  | String a s' => if Ascii.eqb a "@" then s' else after_at s'
  end.

Definition newline : string := String "010" "".

(** What [hi] allows as a repetition count. *)
Definition within (hi : option nat) (n : nat) : Prop :=
  match hi with
  | Some h => n ≤ h
  | None => True
  end.

(** The specification's wording of the email shape, "local@domain.tld":
    exactly one '@', a non-empty local part before it, and after it a
    non-empty domain part that contains a dot. *)
Definition spec_email_shape (s : string) : bool :=
  Nat.eqb (count_char "@" s) 1
  && negb (String.eqb (before_at s) "")
  && negb (String.eqb (after_at s) "")
  && Nat.ltb 0 (count_char "." (after_at s)).

Definition digits_9_15 (d : string) : bool :=
  all is_digit d && Nat.leb 9 (String.length d) && Nat.leb (String.length d) 15.

(** The specification's wording of the phone shape: an optional leading
    "+1" followed by 9 to 15 digits. *)
Definition spec_phone_shape (s : string) : bool :=
  digits_9_15 s
  || match s with
     | String "+" (String "1" d) => digits_9_15 d
     | _ => false
     end.

(** What [email_re] matches under [re.match]: a prefix [x@y.z] with
    [x], [y], [z] non-empty and free of '@'; [rest] is not examined. *)
Definition email_prefix_shape (e : string) : Prop :=
  ∃ x y z rest,
    e = x +:+ "@" +:+ y +:+ "." +:+ z +:+ rest
    ∧ x ≠ "" ∧ y ≠ "" ∧ z ≠ ""
    ∧ all not_at x = true ∧ all not_at y = true ∧ all not_at z = true.

(** What [phone_re] matches under [re.match]: an optional '+', then an
    optional '1', then 9 to 15 digits, then possibly one final newline. *)
Definition phone_shape (s : string) : Prop :=
  ∃ p o d n,
    s = p +:+ o +:+ d +:+ n
    ∧ (p = "" ∨ p = "+") ∧ (o = "" ∨ o = "1")
    ∧ all is_digit d = true
    ∧ 9 ≤ String.length d ∧ String.length d ≤ 15
    ∧ (n = "" ∨ n = newline).

(** ** Verdicts of the record validators

    What [_validate_claim] answers once the policy of the claim is known:
    the checks of lines 180-187 in their order. *)
Definition claim_verdict (claim : Claim.t) (policy : Policy.t) : result unit :=
  if ((Claim.date_of_incident claim <? Policy.start_date policy)%Z
      || (Policy.end_date policy <? Claim.date_of_incident claim)%Z)
  then Raise (ValidationError IncidentOutsidePeriod)
  else if (Qleb (Claim.amount claim) 0
           || Qgtb (Claim.amount claim) (Policy.coverage_amount policy))
  then Raise (ValidationError (AmountOutOfRange (Policy.coverage_amount policy)))
  else if (Claim.date_submitted claim <? Claim.date_of_incident claim)%Z
  then Raise (ValidationError SubmittedBeforeIncident)
  else if (30 <? days (Claim.date_submitted claim)
                      (Claim.date_of_incident claim))%Z
  then Raise (BusinessRuleViolation LateSubmission)
  else Ok tt.

(** What [_validate_policy] answers once the holder of the policy is
    known: the checks of lines 166-174 in their order. *)
Definition policy_verdict (policy : Policy.t) (holder : Policyholder.t)
    : result unit :=
  if (Policy.end_date policy <=? Policy.start_date policy)%Z
  then Raise (ValidationError StartNotBeforeEnd)
  else if Qleb (Policy.coverage_amount policy) 0
  then Raise (ValidationError CoverageNotPositive)
  else if Qleb (Policy.premium policy) 0
  then Raise (ValidationError PremiumNotPositive)
  else if (days (Policy.start_date policy) (Policyholder.date_of_birth holder)
           <? 18 * 365)%Z
  then Raise (BusinessRuleViolation UnderageAtStart)
  else Ok tt.

(** ** Records after the assignments of an update

    [on_arg o set] is the effect of [if o is not None: obj.attr = o] on
    the object. *)
Definition on_arg {A R} (o : option A) (set : A → R → R) : R → R :=
  match o with
  | Some v => set v
  | None => λ r, r
  end.

(** The claim object after lines 144-149 of [update_claim]. *)
Definition updated_claim (description : option string) (amount : option Q)
    (status : option ClaimStatus) (claim : Claim.t) : Claim.t :=
  on_arg status Claim.set_status
    (on_arg amount Claim.set_amount
       (on_arg (truthy description) Claim.set_description claim)).

(** The policy object after lines 108-117 of [update_policy]. *)
Definition updated_policy (type : option string)
    (start_date end_date : option datetime)
    (coverage_amount premium : option Q) (policy : Policy.t) : Policy.t :=
  on_arg premium Policy.set_premium
    (on_arg coverage_amount Policy.set_coverage_amount
       (on_arg end_date Policy.set_end_date
          (on_arg start_date Policy.set_start_date
             (on_arg (truthy type) Policy.set_type policy)))).

(** ** The scenario of the test suites

    Days are numbered from 1970-01-01. *)

Definition PH001 : Policyholder.t :=
  Policyholder.mk "PH001" "John Doe" "+1234567890" "john@example.com"
    (midnight 3652).                                  (* 1980-01-01 *)

Definition POL001 : Policy.t :=
  Policy.mk "POL001" "PH001" "Auto"
    (midnight 19358) (midnight 19723)                 (* 2023-01-01, 2024-01-01 *)
    50000 1000.

Definition POL002 : Policy.t :=
  Policy.mk "POL002" "PH001" "Home"
    (midnight 19358) (midnight 19723) 80000 1500.

Definition CL001 : Claim.t :=
  Claim.mk "CL001" "POL001" (midnight 19509) "Car accident" 5000 SUBMITTED
    (midnight 19523).                                 (* 2023-06-01, 2023-06-15 *)

(** The readings of the clock in the scenario: 2024-06-01. *)
Definition today : datetime := midnight 19875.

(** The store after the holder and the policy are created. *)
Definition store_policy : CMS :=
  exec [CreatePolicyholder today today PH001; CreatePolicy POL001] empty_CMS.

(** The store after the holder, the policy and the claim are created. *)
Definition store_claim : CMS := exec [CreateClaim CL001] store_policy.

(** A claim on POL001 for the whole coverage. *)
Definition claim_full_coverage : Claim.t :=
  Claim.mk "CL002" "POL001" (midnight 19509) "Total loss" 50000 SUBMITTED
    (midnight 19523).

(** A claim on POL001 for more than the coverage. *)
Definition claim_over_coverage : Claim.t :=
  Claim.mk "CL002" "POL001" (midnight 19509) "Expensive accident" 60000
    SUBMITTED (midnight 19523).

(** A claim submitted 30 days after the incident, to the microsecond. *)
Definition claim_30_days : Claim.t :=
  Claim.mk "CL002" "POL001" (midnight 19509) "Car accident" 1000 SUBMITTED
    (midnight 19539).

(** A claim submitted 30 days and 12 hours after the incident. *)
Definition claim_30_days_12_hours : Claim.t :=
  Claim.mk "CL002" "POL001" (midnight 19509) "Car accident" 1000 SUBMITTED
    (midnight 19539 + 43200000000)%Z.

(** A claim submitted 31 days after the incident. *)
Definition claim_31_days : Claim.t :=
  Claim.mk "CL002" "POL001" (midnight 19509) "Late report" 1000 SUBMITTED
    (midnight 19540).

(** The same scenario in the earlier engine. *)
Definition PH001_crud : CRUD.Policyholder.t :=
  CRUD.Policyholder.mk "PH001" "John Doe" "+1234567890" "john@example.com".

Definition POL001_crud : CRUD.Policy.t :=
  CRUD.Policy.mk "POL001" "PH001" "Auto" (midnight 19358) (midnight 19723)
    50000.

Definition store_policy_crud : CRUD.CMS :=
  (CRUD.create_policy POL001_crud
     (CRUD.create_policyholder PH001_crud CRUD.empty_CMS).1).1.

(** A holder born 2005-01-05 is 18 x 365 days old on 2023-01-01; one born
    the day after is not. *)
Definition PH_6570_days : Policyholder.t :=
  Policyholder.mk "PH002" "Jane Doe" "+1234567890" "jane@example.com"
    (midnight 12788).

Definition PH_6569_days : Policyholder.t :=
  Policyholder.mk "PH003" "Jim Doe" "+1234567890" "jim@example.com"
    (midnight 12789).

Definition POL_of (holder : string) : Policy.t :=
  Policy.mk "POL003" holder "Auto" (midnight 19358) (midnight 19723)
    50000 1000.

(** The store with the two young holders, and then with a policy of the
    elder that starts on 2023-01-01. *)
Definition store_ages : CMS :=
  exec [CreatePolicyholder today today PH_6570_days;
        CreatePolicyholder today today PH_6569_days] empty_CMS.

Definition store_ages_policy : CMS :=
  exec [CreatePolicy (POL_of "PH002")] store_ages.

(** ** What a cascade leaves

    [without p m] is [m] less the entries whose value satisfies [p];
    [delete_all l m] is [m] after [del m[k]] for each [k] of [l] in turn. *)
Definition without {V} (p : V → bool) (m : gmap string V) : gmap string V :=
  filter (λ kv, p kv.2 = false) m.

Definition delete_all {V} (l : list string) (m : gmap string V)
    : gmap string V :=
  foldl (λ m k, delete k m) m l.

(** The tests of the two list comprehensions, lines 88 and 125. *)
Definition is_policy_of (policyholder_id : string) (policy : Policy.t) : bool :=
  String.eqb (Policy.policyholder_id policy) policyholder_id.

Definition is_claim_on (policy_id : string) (claim : Claim.t) : bool :=
  String.eqb (Claim.policy_id claim) policy_id.

(** A claim whose policy is stored in [s] and belongs to the holder. *)
Definition is_claim_of (s : CMS) (policyholder_id : string) (claim : Claim.t)
    : bool :=
  match policies s !! Claim.policy_id claim with
  | Some policy => is_policy_of policyholder_id policy
  | None => false
  end.

(** The store of the scenario with a second policy of the same holder. *)
Definition store_two_policies : CMS := exec [CreatePolicy POL002] store_claim.

(** ** Referential integrity *)

Definition ref_integrity (s : CMS) : Prop :=
  (∀ k policy, policies s !! k = Some policy →
     is_Some (policyholders s !! Policy.policyholder_id policy))
  ∧ (∀ k claim, claims s !! k = Some claim →
       is_Some (policies s !! Claim.policy_id claim)).

(** ** The holder after the assignments of [update_policyholder]

    Lines 71-81 validate and assign field by field: [checked] is one such
    [if v: validate(v); obj.attr = v], which stops at the record as it
    stands when the validator raises. *)

Definition phone_verdict (phone : string) : result unit :=
  if re_match phone_re phone then Ok tt
  else Raise (ValidationError InvalidPhone).

Definition email_verdict (email : string) : result unit :=
  if re_match email_re email then Ok tt
  else Raise (ValidationError InvalidEmail).

Definition date_of_birth_verdict (now now' : datetime)
    (date_of_birth : datetime) : result unit :=
  if (now <? date_of_birth)%Z then Raise (ValidationError DobInFuture)
  else if (days now' date_of_birth <? 18 * 365)%Z
  then Raise (BusinessRuleViolation Underage)
  else Ok tt.

Definition checked {A R} (o : option A) (verdict : A → result unit)
    (set : A → R → R) (rest : R → R * result unit) (r : R)
    : R * result unit :=
  match o with
  | None => rest r
  | Some v =>
      match verdict v with
      | Ok _ => rest (set v r)
      | Raise e => (r, Raise e)
      end
  end.

Definition updated_policyholder (now now' : datetime)
    (name contact_number email : option string)
    (date_of_birth : option datetime) (holder : Policyholder.t)
    : Policyholder.t * result unit :=
  checked (truthy name) (λ _, Ok tt) Policyholder.set_name
    (checked (truthy contact_number) phone_verdict
       Policyholder.set_contact_number
       (checked (truthy email) email_verdict Policyholder.set_email
          (checked date_of_birth (date_of_birth_verdict now now')
             Policyholder.set_date_of_birth
             (λ h, (h, Ok tt)))))
    holder.

(** ** The change an operation makes

    [applied o s] is the store with every write of [o] made: the insertion
    of a creation, the whole cascade of a deletion, the assignments of an
    update. *)

Definition is_update (o : op) : bool :=
  match o with
  | UpdatePolicyholder _ _ _ _ _ _ _ | UpdatePolicy _ _ _ _ _ _
  | UpdateClaim _ _ _ _ => true
  | _ => false
  end.

Definition applied (o : op) (s : CMS) : CMS :=
  match o with
  | CreatePolicyholder _ _ p =>
      set_policyholders (<[Policyholder.id p := p]> (policyholders s)) s
  | UpdatePolicyholder now now' k n c e d =>
      set_policyholders
        (alter (λ h, (updated_policyholder now now' n c e d h).1) k
           (policyholders s)) s
  | DeletePolicyholder k =>
      mkCMS (delete k (policyholders s))
        (without (is_policy_of k) (policies s))
        (without (is_claim_of s k) (claims s))
  | CreatePolicy p => set_policies (<[Policy.id p := p]> (policies s)) s
  | UpdatePolicy k t sd ed c p =>
      set_policies (alter (updated_policy t sd ed c p) k (policies s)) s
  | DeletePolicy k =>
      mkCMS (policyholders s) (delete k (policies s))
        (without (is_claim_on k) (claims s))
  | CreateClaim c => set_claims (<[Claim.id c := c]> (claims s)) s
  | UpdateClaim k d a st =>
      set_claims (alter (updated_claim d a st) k (claims s)) s
  | DeleteClaim k => set_claims (delete k (claims s)) s
  end.

(** Whether the record an update names is stored. *)
Definition target_known (o : op) (s : CMS) : bool :=
  match o with
  | UpdatePolicyholder _ _ k _ _ _ _ =>
      bool_decide (is_Some (policyholders s !! k))
  | UpdatePolicy k _ _ _ _ _ => bool_decide (is_Some (policies s !! k))
  | UpdateClaim k _ _ _ => bool_decide (is_Some (claims s !! k))
  | _ => true
  end.

(** The claim of the scenario once closed, in the later engine and in the
    earlier one. *)
Definition store_closed : CMS :=
  exec [UpdateClaim "CL001" None None (Some CLOSED)] store_claim.

Definition store_closed_crud : CRUD.CMS :=
  (CRUD.update_claim "CL001" None None (Some CLOSED)
     (CRUD.create_claim CL001 store_policy_crud).1).1.

(** The scenario after the coverage of POL001 is lowered to 1000, below
    the amount of CL001, and after the date of birth of PH001 is moved to
    2005-08-05: 18 x 365 days before 2024-06-01, not before the start of
    POL001. *)
Definition lower_coverage : op :=
  UpdatePolicy "POL001" None None None (Some 1000%Q) None.

Definition store_low_coverage : CMS := exec [lower_coverage] store_claim.

Definition move_date_of_birth : op :=
  UpdatePolicyholder today today "PH001" None None None (Some (midnight 13000)).

Definition store_young_holder : CMS := exec [move_date_of_birth] store_claim.

(** ** The first engine ([SCMS_LLD.py])

    Its dataclasses and its store are those of [SCMS_CRUD.py], field for
    field; [add_policyholder], [add_policy] and [submit_claim] have the
    statements of the three creations there.  Its one update changes the
    status of a claim. *)

Module LLD.

(** [SCMS_LLD.py], lines 50-55, 57-66, 68-78 *)
Definition add_policyholder := CRUD.create_policyholder.
Definition add_policy := CRUD.create_policy.
Definition submit_claim := CRUD.create_claim.

(** [SCMS_LLD.py], lines 80-86 *)
Definition update_claim_status (claim_id : string) (new_status : ClaimStatus)
    : M CRUD.CMS unit :=
  known ⇐ contains CRUD.claims claim_id;
  raise_if (negb known) (ValidationError (ClaimMissing claim_id)) ;;;
  claim ⇐ subscript CRUD.claims claim_id;
  raise_if (CRUD.status_eqb (Claim.status claim) CLOSED)
    (ValidationError ClosedClaim) ;;;
  CRUD.setattr_claim claim_id (Claim.set_status new_status).

End LLD.

(** ** The values of the status enumeration ([SCMS_api.py], lines 8-13)

    [status_value s] is [s.value]; [status_of_value v] is [ClaimStatus(v)],
    the first member whose value is [v], and [None] stands for the
    [ValueError] of a string that is no member's value. *)

Definition status_value (s : ClaimStatus) : string :=
  match s with
  | SUBMITTED => "Submitted"
  | UNDER_REVIEW => "Under Review"
  | APPROVED => "Approved"
  | REJECTED => "Rejected"
  | CLOSED => "Closed"
  end.

Definition status_members : list ClaimStatus :=
  [SUBMITTED; UNDER_REVIEW; APPROVED; REJECTED; CLOSED].

Definition status_of_value (v : string) : option ClaimStatus :=
  find (λ s, String.eqb (status_value s) v) status_members.

(** ** The DELETE routes ([SCMS_api.py], lines 261-267, 319-325, 375-381)

    A route answers with a JSON body and a status code; an exception that
    its [except] clause does not name escapes the route. *)

Module Api.

Inductive body :=
| message_body (text : string)      (* {"message": text} *)
| error_body (e : message).         (* {"error": str(e)} *)

Record response := mk_response { json : body; status_code : nat }.

(** [try: m  except ValidationError as e: h(e)] *)
Definition except_ValidationError (m : E response) (h : message → response)
    : E response :=
  λ s, match m s with
       | (s', Raise (ValidationError e)) => (s', Ok (h e))
       | r => r
       end.

Definition delete_policyholder (policyholder_id : string) : E response :=
  except_ValidationError
    (delete_policyholder policyholder_id ;;;
     ret (mk_response (message_body "Policyholder deleted successfully") 200))
    (λ e, mk_response (error_body e) 400).

Definition delete_policy (policy_id : string) : E response :=
  except_ValidationError
    (delete_policy policy_id ;;;
     ret (mk_response (message_body "Policy deleted successfully") 200))
    (λ e, mk_response (error_body e) 400).

Definition delete_claim (claim_id : string) : E response :=
  except_ValidationError
    (delete_claim claim_id ;;;
     ret (mk_response (message_body "Claim deleted successfully") 200))
    (λ e, mk_response (error_body e) 400).

End Api.

(** ** What the stored records of the later engine satisfy *)

(** Every record is stored under its own id. *)
Definition well_keyed (s : CMS) : Prop :=
  (∀ k h, policyholders s !! k = Some h → Policyholder.id h = k)
  ∧ (∀ k p, policies s !! k = Some p → Policy.id p = k)
  ∧ (∀ k c, claims s !! k = Some c → Claim.id c = k).

(** Every stored holder has an email and a contact number that the two
    patterns match. *)
Definition holders_well_formed (s : CMS) : Prop :=
  ∀ k h, policyholders s !! k = Some h →
    re_match email_re (Policyholder.email h) = true
    ∧ re_match phone_re (Policyholder.contact_number h) = true.

(** The conditions of [_validate_policy] on a policy and its holder, and
    of [_validate_claim] on a claim and its policy: no test that guards a
    [raise] holds.  The tests on amounts are kept as the comparisons of
    the code: for a number, [coverage_amount <= 0] being false is
    [coverage_amount] being positive; for a NaN every comparison is
    false, and nothing about its sign follows. *)
Definition policy_conditions (policy : Policy.t) (holder : Policyholder.t)
    : Prop :=
  (Policy.start_date policy < Policy.end_date policy)%Z
  ∧ Qleb (Policy.coverage_amount policy) 0 = false
  ∧ Qleb (Policy.premium policy) 0 = false
  ∧ (18 * 365 ≤ days (Policy.start_date policy)
                     (Policyholder.date_of_birth holder))%Z.

Definition claim_conditions (claim : Claim.t) (policy : Policy.t) : Prop :=
  (Policy.start_date policy ≤ Claim.date_of_incident claim)%Z
  ∧ (Claim.date_of_incident claim ≤ Policy.end_date policy)%Z
  ∧ Qleb (Claim.amount claim) 0 = false
  ∧ Qgtb (Claim.amount claim) (Policy.coverage_amount policy) = false
  ∧ (Claim.date_of_incident claim ≤ Claim.date_submitted claim)%Z
  ∧ (days (Claim.date_submitted claim) (Claim.date_of_incident claim) ≤ 30)%Z.

(** The holder with every given field assigned. *)
Definition holder_with (name contact_number email : option string)
    (date_of_birth : option datetime) (holder : Policyholder.t)
    : Policyholder.t :=
  on_arg date_of_birth Policyholder.set_date_of_birth
    (on_arg (truthy email) Policyholder.set_email
       (on_arg (truthy contact_number) Policyholder.set_contact_number
          (on_arg (truthy name) Policyholder.set_name holder))).

(** The scenario in the first engine, with the claim closed. *)
Definition store_closed_lld : CRUD.CMS :=
  (LLD.update_claim_status "CL001" CLOSED
     (LLD.submit_claim CL001 store_policy_crud).1).1.

(** ** The claim after the assignments of the earlier [update_claim]

    Lines 148-158 of [SCMS_CRUD.py] on the claim object, with the answer;
    [policies] is the mapping that the amount check reads. *)
Definition CRUD_updated_claim (policies : gmap string CRUD.Policy.t)
    (description : option string) (amount : option Q)
    (status : option ClaimStatus) (claim : Claim.t) : Claim.t * result unit :=
  let c1 := on_arg (truthy description) Claim.set_description claim in
  let finish c2 :=
    match status with
    | None => (c2, Ok tt)
    | Some v =>
        if CRUD.status_eqb (Claim.status c2) CLOSED
        then (c2, Raise (ValidationError ClosedClaim))
        else (Claim.set_status v c2, Ok tt)
    end in
  match amount with
  | None => finish c1
  | Some v =>
      match policies !! Claim.policy_id c1 with
      | None => (c1, Raise (KeyError (Claim.policy_id c1)))
      | Some policy =>
          if Qleb v 0 || Qgtb v (CRUD.Policy.coverage_amount policy)
          then (c1, Raise (ValidationError
                             (AmountOutOfRange
                                (CRUD.Policy.coverage_amount policy))))
          else finish (Claim.set_amount v c1)
      end
  end.

(** ** Properties that a computation keeps

    [keeps P m]: from a store with [P], the store that [m] leaves has [P],
    whether [m] returns or raises. *)
Definition keeps {St A} (P : St → Prop) (m : M St A) : Prop :=
  ∀ s, P s → P (m s).1.

(** The store after a sequence of status updates of the first engine. *)
Definition LLD_exec (calls : list (string * ClaimStatus)) (s : CRUD.CMS)
    : CRUD.CMS :=
  foldl (λ s call, (LLD.update_claim_status call.1 call.2 s).1) s calls.

(** ** The phone pattern on strings of any characters

    A Python [str] is a sequence of code points, which need not be below
    256.  In a [str] pattern the class [\d] matches every Unicode decimal
    digit: the digits [0-9] and those of the other scripts.  The table of
    the decimal digits belongs to the Python runtime, not to the
    repository: it is the parameter [isdecimal].  The matcher is the one
    above, on sequences of code points. *)

Module Unicode.

Definition str := list N.

Inductive atom :=
| Class (c : N → bool) (lo : nat) (hi : option nat)   (* c{lo,hi} *)
| Dollar.                                             (* $ *)

Definition pattern := list atom.

Definition opt (c : N) : atom := Class (N.eqb c) 0 (Some 1).

Definition at_end (s : str) : bool :=
  match s with
  | [] => true
  | [c] => N.eqb c 10
  | _ => false
  end.

Fixpoint rep (c : N → bool) (k : str → bool)
    (lo : nat) (hi : option nat) (s : str) : bool :=
  match lo with O => k s | S _ => false end
  || match s with
     | [] => false
     | a :: s' =>
         c a &&
         match hi with
         | Some O => false
         | Some (S h) => rep c k (pred lo) (Some h) s'
         | None => rep c k (pred lo) None s'
         end
     end.

Fixpoint matches (p : pattern) (s : str) : bool :=
  match p with
  | [] => true
  | Class c lo hi :: p' => rep c (matches p') lo hi s
  | Dollar :: p' => at_end s && matches p' s
  end.

Definition re_match (p : pattern) (s : str) : bool := matches p s.

Section Decimal.
Variable isdecimal : N → bool.

(** r"^\+?1?\d{9,15}$": '+' is U+002B, '1' is U+0031. *)
Definition phone_re : pattern :=
  [opt 43; opt 49; Class isdecimal 9 (Some 15); Dollar].

Definition _validate_phone_number {St} (phone : str) : M St unit :=
  raise_if (negb (re_match phone_re phone)) (ValidationError InvalidPhone).

(** An optional '+', then an optional '1', then 9 to 15 decimal digits,
    then possibly one final newline (U+000A). *)
Definition phone_shape (s : str) : Prop :=
  ∃ p o d n,
    s = (p ++ o ++ d ++ n)%list
    ∧ (p = [] ∨ p = [43%N]) ∧ (o = [] ∨ o = [49%N])
    ∧ forallb isdecimal d = true
    ∧ 9 ≤ List.length d ∧ List.length d ≤ 15
    ∧ (n = [] ∨ n = [10%N]).

End Decimal.

(** The code points of a string of 8-bit characters. *)
Definition of_string (s : string) : str :=
  N_of_ascii <$> list_ascii_of_string s.

Definition between (lo hi c : N) : bool := (lo <=? c)%N && (c <=? hi)%N.

(** A table with three of the ranges of decimal digits: [0-9], the
    Arabic-Indic digits U+0660 to U+0669 and the fullwidth digits U+FF10
    to U+FF19. *)
Definition three_ranges (c : N) : bool :=
  between 48 57 c || between 1632 1641 c || between 65296 65305 c.

End Unicode.

(** * Properties *)

(** ** The regular-expression fragment *)

Local Arguments String.append !_ _ / : simpl nomatch.

Lemma rep_spec c k lo hi s :
  rep c k lo hi s = true ↔
  ∃ u v, s = u +:+ v ∧ all c u = true ∧ lo ≤ String.length u
         ∧ within hi (String.length u) ∧ k v = true.
Proof.
  revert lo hi. induction s as [|a s IH]; intros lo hi.
  - simpl. rewrite orb_false_r. split.
    + destruct lo; [|done]. intros Hk. exists "", "".
      destruct hi; simpl; repeat split; auto; lia.
    + intros (u & v & Hs & _ & Hlo & _ & Hk).
      destruct u; [|done]. simpl in *. subst v.
      destruct lo; [done|lia].
  - simpl. rewrite orb_true_iff, andb_true_iff. split.
    + intros [Hk | [Ha Hr]].
      * destruct lo; [|done]. exists "", (String a s).
        destruct hi; simpl; repeat split; auto; lia.
      * assert (∃ hi', rep c k (pred lo) hi' s = true
                       ∧ ∀ n, within hi' n → within hi (S n))
          as (hi' & Hr' & Hhi).
        { destruct hi as [[|h]|]; [done| |].
          - exists (Some h). split; [done|]. simpl. lia.
          - exists None. done. }
        apply IH in Hr' as (u & v & -> & Hu & Hlo & Hw & Hk).
        exists (String a u), v. simpl. rewrite Ha, Hu.
        repeat split; auto. lia.
    + intros (u & v & Hs & Hu & Hlo & Hw & Hk).
      destruct u as [|b u]; simpl in *.
      * left. subst v. destruct lo; [done|lia].
      * right. injection Hs as -> ->.
        apply andb_true_iff in Hu as [Hb Hu]. split; [done|].
        destruct hi as [[|h]|]; simpl in Hw; [lia| |];
          apply IH; exists u, v; simpl; repeat split; auto; lia.
Qed.

Lemma all_lit a u :
  all (Ascii.eqb a) u = true ∧ 1 ≤ String.length u ∧ String.length u ≤ 1
  ↔ u = String a "".
Proof.
  split.
  - intros (Hu & H1 & H2). destruct u as [|b [|? ?]]; simpl in *; try lia.
    rewrite andb_true_r in Hu. apply Ascii.eqb_eq in Hu. by subst.
  - intros ->. simpl. rewrite Ascii.eqb_refl. auto.
Qed.

Lemma all_opt a u :
  all (Ascii.eqb a) u = true ∧ String.length u ≤ 1
  ↔ u = "" ∨ u = String a "".
Proof.
  split.
  - intros (Hu & H2). destruct u as [|b [|? ?]]; simpl in *; try lia; auto.
    rewrite andb_true_r in Hu. apply Ascii.eqb_eq in Hu. subst. auto.
  - intros [-> | ->]; simpl; [auto|]. rewrite Ascii.eqb_refl. auto.
Qed.

Lemma length_pos_nonempty (u : string) : 1 ≤ String.length u ↔ u ≠ "".
Proof. destruct u; simpl; split; (done || lia). Qed.

Lemma at_end_spec s : at_end s = true ↔ s = "" ∨ s = newline.
Proof.
  unfold newline. destruct s as [|a [|? ?]]; simpl; split; auto.
  - intros H. apply Ascii.eqb_eq in H. subst. auto.
  - intros [|H]; [done|]. injection H as ->. done.
  - done.
  - intros [|]; done.
Qed.

(** Supplies the split [u], [v] of one repetition and leaves the match of
    the rest of the pattern on [v]. *)
Local Ltac rep_split u v :=
  apply rep_spec; exists u, v;
  split; [done|]; split; [done|];
  split; [first [done | simpl; lia]|];
  split; [first [done | simpl; lia]|].

Lemma email_re_spec e : re_match email_re e = true ↔ email_prefix_shape e.
Proof.
  unfold re_match, email_re, email_prefix_shape, plus, lit. simpl. split.
  - intros H.
    apply rep_spec in H as (x & v1 & -> & Hx & Lx & _ & H).
    apply rep_spec in H as (a & v2 & -> & Ha & La1 & La2 & H).
    apply rep_spec in H as (y & v3 & -> & Hy & Ly & _ & H).
    apply rep_spec in H as (d & v4 & -> & Hd & Ld1 & Ld2 & H).
    apply rep_spec in H as (z & rest & -> & Hz & Lz & _ & _).
    simpl in La2, Ld2.
    assert (a = "@") as -> by (by apply all_lit).
    assert (d = ".") as -> by (by apply all_lit).
    exists x, y, z, rest. rewrite <- !length_pos_nonempty. done.
  - intros (x & y & z & rest & -> & Nx & Ny & Nz & Hx & Hy & Hz).
    apply length_pos_nonempty in Nx, Ny, Nz.
    rep_split x ("@" +:+ y +:+ "." +:+ z +:+ rest).
    rep_split "@" (y +:+ "." +:+ z +:+ rest).
    rep_split y ("." +:+ z +:+ rest).
    rep_split "." (z +:+ rest).
    rep_split z rest. done.
Qed.

Lemma phone_re_spec s : re_match phone_re s = true ↔ phone_shape s.
Proof.
  unfold re_match, phone_re, phone_shape, opt. simpl. split.
  - intros H.
    apply rep_spec in H as (p & v1 & -> & Hp & _ & Lp & H).
    apply rep_spec in H as (o & v2 & -> & Ho & _ & Lo & H).
    apply rep_spec in H as (d & n & -> & Hd & Ld1 & Ld2 & H).
    apply andb_true_iff in H as [H _]. apply at_end_spec in H.
    simpl in Lp, Lo, Ld2.
    exists p, o, d, n. repeat split; auto.
    + by apply (all_opt "+").
    + by apply (all_opt "1").
  - intros (p & o & d & n & -> & Hp & Ho & Hd & L1 & L2 & Hn).
    apply (all_opt "+") in Hp as [Hp Lp]. apply (all_opt "1") in Ho as [Ho Lo].
    rep_split p (o +:+ d +:+ n).
    rep_split o (d +:+ n).
    rep_split d n.
    apply andb_true_iff. split; [|done]. by apply at_end_spec.
Qed.

(** ** Stepping through the monad *)

Ltac unfold_M :=
  unfold bind, contains, gets, raise_if, subscript, modify, raise, ret,
    when_some in *.

Lemma bool_decide_is_Some {V} (o : option V) :
  bool_decide (is_Some o) = match o with Some _ => true | None => false end.
Proof.
  destruct o.
  - apply bool_decide_eq_true. eauto.
  - apply bool_decide_eq_false. by intros [? ?].
Qed.

Lemma Qleb_true x y : Qleb x y = true ↔ (x <= y)%Q.
Proof. apply Qle_bool_iff. Qed.

Lemma Qleb_false x y : Qleb x y = false ↔ (y < x)%Q.
Proof.
  unfold Qleb. rewrite <- not_true_iff_false, Qle_bool_iff. split.
  - apply Qnot_le_lt.
  - apply Qlt_not_le.
Qed.

Lemma Qgtb_true x y : Qgtb x y = true ↔ (y < x)%Q.
Proof. unfold Qgtb. rewrite negb_true_iff. apply Qleb_false. Qed.

Lemma Qgtb_false x y : Qgtb x y = false ↔ (x <= y)%Q.
Proof. unfold Qgtb. rewrite negb_false_iff. apply Qleb_true. Qed.

(** ** Equations of the monad *)

Section Steps.
Context {St : Type}.
Implicit Types (s : St) (e : exn).

Lemma bind_contains {V B} (d : St → gmap string V) k (f : bool → M St B) s :
  bind (contains d k) f s
  = f (match d s !! k with Some _ => true | None => false end) s.
Proof. unfold_M. by rewrite bool_decide_is_Some. Qed.

Lemma bind_raise_if {B} b e (m : M St B) s :
  bind (raise_if b e) (λ _, m) s = if b then (s, Raise e) else m s.
Proof. by destruct b. Qed.

Lemma bind_subscript {V B} (d : St → gmap string V) k (f : V → M St B) s :
  bind (subscript d k) f s
  = match d s !! k with
    | Some v => f v s
    | None => (s, Raise (KeyError k))
    end.
Proof. unfold_M. by destruct (d s !! k). Qed.

Lemma bind_modify {B} (g : St → St) (m : M St B) s :
  bind (modify g) (λ _, m) s = m (g s).
Proof. done. Qed.

Lemma bind_gets {A B} (g : St → A) (f : A → M St B) s :
  bind (gets g) f s = f (g s) s.
Proof. done. Qed.

Lemma bind_ret {A B} (a : A) (f : A → M St B) s : bind (ret a) f s = f a s.
Proof. done. Qed.

Lemma raise_if_eq b e s :
  raise_if b e s = if b then (s, Raise e) else (s, Ok tt).
Proof. by destruct b. Qed.
End Steps.

Ltac step :=
  repeat first
    [ rewrite bind_contains | rewrite bind_raise_if | rewrite bind_subscript
    | rewrite bind_modify | rewrite bind_gets | rewrite bind_ret
    | rewrite raise_if_eq ].

Ltac case_ifs :=
  repeat (match goal with
          | |- context [if ?b then _ else _] => destruct b
          end; simpl; try done).

(** ** Validators only read the store *)

Lemma _validate_claim_known claim policy s :
  policies s !! Claim.policy_id claim = Some policy →
  _validate_claim claim s = (s, claim_verdict claim policy).
Proof.
  intros H. unfold _validate_claim, claim_verdict. step. rewrite H.
  simpl. case_ifs.
Qed.

Lemma _validate_claim_unknown claim s :
  policies s !! Claim.policy_id claim = None →
  _validate_claim claim s
  = (s, Raise (ValidationError (PolicyMissing (Claim.policy_id claim)))).
Proof. intros H. unfold _validate_claim. step. by rewrite H. Qed.

Lemma _validate_claim_store claim s : (_validate_claim claim s).1 = s.
Proof.
  destruct (policies s !! Claim.policy_id claim) eqn:H.
  - by erewrite _validate_claim_known.
  - by rewrite _validate_claim_unknown.
Qed.

Lemma _validate_policy_known policy holder s :
  policyholders s !! Policy.policyholder_id policy = Some holder →
  _validate_policy policy s = (s, policy_verdict policy holder).
Proof.
  intros H. unfold _validate_policy, policy_verdict. step. rewrite H.
  simpl. case_ifs.
Qed.

Lemma _validate_policy_unknown policy s :
  policyholders s !! Policy.policyholder_id policy = None →
  _validate_policy policy s
  = (s, Raise (ValidationError
                 (PolicyholderMissing (Policy.policyholder_id policy)))).
Proof. intros H. unfold _validate_policy. step. by rewrite H. Qed.

Lemma _validate_policy_store policy s : (_validate_policy policy s).1 = s.
Proof.
  destruct (policyholders s !! Policy.policyholder_id policy) eqn:H.
  - by erewrite _validate_policy_known.
  - by rewrite _validate_policy_unknown.
Qed.

(** [create_claim] and [create_policy] in terms of the validators. *)
Lemma create_claim_eq claim s :
  create_claim claim s =
  match _validate_claim claim s with
  | (_, Raise e) => (s, Raise e)
  | (_, Ok _) =>
      match claims s !! Claim.id claim with
      | Some _ => (s, Raise (ValidationError (ClaimExists (Claim.id claim))))
      | None => (set_claims (<[Claim.id claim := claim]> (claims s)) s, Ok tt)
      end
  end.
Proof.
  unfold create_claim. unfold bind at 1.
  pose proof (_validate_claim_store claim s) as Hs.
  destruct (_validate_claim claim s) as [s' [[]|e]]; simpl in Hs; subst s';
    [|done].
  unfold_M. simpl. rewrite bool_decide_is_Some.
  by destruct (claims s !! Claim.id claim).
Qed.

Lemma create_policy_eq policy s :
  create_policy policy s =
  match _validate_policy policy s with
  | (_, Raise e) => (s, Raise e)
  | (_, Ok _) =>
      match policies s !! Policy.id policy with
      | Some _ => (s, Raise (ValidationError (PolicyExists (Policy.id policy))))
      | None =>
          (set_policies (<[Policy.id policy := policy]> (policies s)) s, Ok tt)
      end
  end.
Proof.
  unfold create_policy. unfold bind at 1.
  pose proof (_validate_policy_store policy s) as Hs.
  destruct (_validate_policy policy s) as [s' [[]|e]]; simpl in Hs; subst s';
    [|done].
  unfold_M. simpl. rewrite bool_decide_is_Some.
  by destruct (policies s !! Policy.id policy).
Qed.

(** ** Updates in terms of the record they leave in the store *)

Lemma alter_Some {V} (f : V → V) (m : gmap string V) k v :
  m !! k = Some v → alter f k m = <[k := f v]> m.
Proof.
  intros H. apply map_eq. intros j.
  rewrite lookup_alter, lookup_insert. case_decide; [|done].
  subst j. by rewrite H.
Qed.

Lemma _validate_claim_pair claim s :
  _validate_claim claim s = (s, (_validate_claim claim s).2).
Proof.
  rewrite <- (_validate_claim_store claim s) at 2.
  by destruct (_validate_claim claim s).
Qed.

Lemma _validate_policy_pair policy s :
  _validate_policy policy s = (s, (_validate_policy policy s).2).
Proof.
  rewrite <- (_validate_policy_store policy s) at 2.
  by destruct (_validate_policy policy s).
Qed.

Lemma set_claims_set_claims m m' s :
  set_claims m (set_claims m' s) = set_claims m s.
Proof. done. Qed.

Lemma set_policies_set_policies m m' s :
  set_policies m (set_policies m' s) = set_policies m s.
Proof. done. Qed.

Lemma set_policyholders_set_policyholders m m' s :
  set_policyholders m (set_policyholders m' s) = set_policyholders m s.
Proof. done. Qed.

Lemma set_claims_id k c s :
  claims s !! k = Some c → set_claims (<[k := c]> (claims s)) s = s.
Proof. intros H. rewrite (insert_id _ _ _ H). by destruct s. Qed.

Lemma set_policies_id k p s :
  policies s !! k = Some p → set_policies (<[k := p]> (policies s)) s = s.
Proof. intros H. rewrite (insert_id _ _ _ H). by destruct s. Qed.

Lemma set_policyholders_id k p s :
  policyholders s !! k = Some p →
  set_policyholders (<[k := p]> (policyholders s)) s = s.
Proof. intros H. rewrite (insert_id _ _ _ H). by destruct s. Qed.

Lemma update_claim_unknown claim_id description amount status s :
  claims s !! claim_id = None →
  update_claim claim_id description amount status s
  = (s, Raise (ValidationError (ClaimMissing claim_id))).
Proof. intros H. unfold update_claim. step. by rewrite H. Qed.

Lemma update_claim_known claim_id description amount status s claim :
  claims s !! claim_id = Some claim →
  let claim' := updated_claim description amount status claim in
  let s' := set_claims (<[claim_id := claim']> (claims s)) s in
  update_claim claim_id description amount status s
  = (s', (_validate_claim claim' s').2).
Proof.
  intros H claim' s'. subst claim' s'.
  unfold update_claim, updated_claim, setattr_claim. step. rewrite H. simpl.
  destruct (truthy description), amount, status; simpl; step; simpl;
    rewrite ?(alter_Some _ _ _ _ H), ?alter_insert_eq, ?lookup_insert_eq, ?H;
    rewrite ?set_claims_set_claims, ?(set_claims_id _ _ _ H);
    apply _validate_claim_pair.
Qed.

Lemma update_policy_unknown policy_id type start_date end_date
    coverage_amount premium s :
  policies s !! policy_id = None →
  update_policy policy_id type start_date end_date coverage_amount premium s
  = (s, Raise (ValidationError (PolicyMissing policy_id))).
Proof. intros H. unfold update_policy. step. by rewrite H. Qed.

Lemma update_policy_known policy_id type start_date end_date
    coverage_amount premium s policy :
  policies s !! policy_id = Some policy →
  let policy' :=
    updated_policy type start_date end_date coverage_amount premium policy in
  let s' := set_policies (<[policy_id := policy']> (policies s)) s in
  update_policy policy_id type start_date end_date coverage_amount premium s
  = (s', (_validate_policy policy' s').2).
Proof.
  intros H policy' s'. subst policy' s'.
  unfold update_policy, updated_policy, setattr_policy. step. rewrite H. simpl.
  destruct (truthy type), start_date, end_date, coverage_amount, premium;
    simpl; step; simpl;
    rewrite ?(alter_Some _ _ _ _ H), ?alter_insert_eq, ?lookup_insert_eq, ?H;
    rewrite ?set_policies_set_policies, ?(set_policies_id _ _ _ H);
    apply _validate_policy_pair.
Qed.

Ltac by_computation := vm_compute; first [reflexivity | congruence].

(** ** The scenarios of the test suites, run on the embedding *)

(** The three creations return and store the records; approving the claim
    returns; deleting the policy afterwards removes the claim too. *)
Example scenario_create_update_delete :
  outcome (CreatePolicyholder today today PH001) empty_CMS = Ok tt
  ∧ outcome (CreatePolicy POL001)
      (exec [CreatePolicyholder today today PH001] empty_CMS) = Ok tt
  ∧ outcome (CreateClaim CL001) store_policy = Ok tt
  ∧ get_policyholder "PH001" store_claim = Some PH001
  ∧ get_policy "POL001" store_claim = Some POL001
  ∧ get_claim "CL001" store_claim = Some CL001
  ∧ outcome (UpdateClaim "CL001" None None (Some APPROVED)) store_claim = Ok tt
  ∧ get_claim "CL001"
      (exec [UpdateClaim "CL001" None None (Some APPROVED)] store_claim)
    = Some (Claim.set_status APPROVED CL001)
  ∧ get_claim "CL001"
      (exec [UpdateClaim "CL001" None None (Some APPROVED);
             DeletePolicy "POL001"] store_claim) = None.
Proof. repeat split; by_computation. Qed.

(** [test_create_underage_policyholder], [test_create_policy_with_invalid_dates],
    [test_create_claim_exceeding_coverage] and [test_create_late_claim]. *)
Example scenario_refusals :
  outcome (CreatePolicyholder today today
             (Policyholder.mk "PH002" "Jane Doe" "+1234567890"
                "jane@example.com" (today - 17 * 365 * us_per_day)%Z))
    empty_CMS
  = Raise (BusinessRuleViolation Underage)
  ∧ outcome (CreatePolicy
               (Policy.mk "POL002" "PH001" "Auto" (midnight 19723)
                  (midnight 19358) 50000 1000)) store_policy
    = Raise (ValidationError StartNotBeforeEnd)
  ∧ outcome (CreateClaim claim_over_coverage) store_policy
    = Raise (ValidationError (AmountOutOfRange 50000))
  ∧ outcome (CreateClaim
               (Claim.mk "CL002" "POL001" (midnight 19358) "Late report" 1000
                  SUBMITTED (midnight 19417))) store_policy
    = Raise (BusinessRuleViolation LateSubmission)
  ∧ CRUD.create_policyholder
      (CRUD.Policyholder.mk "PH002" "Jane Doe" "+1234567890" "invalid_email")
      CRUD.empty_CMS
    = (CRUD.empty_CMS, Raise (ValidationError InvalidEmail)).
Proof. repeat split; by_computation. Qed.

(** ** Creating a claim: the coverage bound *)

Lemma CRUD_create_claim_known claim policy (s : CRUD.CMS) :
  CRUD.policies s !! Claim.policy_id claim = Some policy →
  CRUD.claims s !! Claim.id claim = None →
  CRUD.create_claim claim s =
  if ((Claim.date_of_incident claim <? CRUD.Policy.start_date policy)%Z
      || (CRUD.Policy.end_date policy <? Claim.date_of_incident claim)%Z)
  then (s, Raise (ValidationError IncidentOutsidePeriod))
  else if (Qleb (Claim.amount claim) 0
           || Qgtb (Claim.amount claim) (CRUD.Policy.coverage_amount policy))
  then (s, Raise (ValidationError
                    (AmountOutOfRange (CRUD.Policy.coverage_amount policy))))
  else (CRUD.set_claims (<[Claim.id claim := claim]> (CRUD.claims s)) s, Ok tt).
Proof.
  intros Hp Hc. unfold CRUD.create_claim. step. rewrite Hp, Hc. simpl.
  case_ifs.
Qed.

(** C4.  In a store that holds the policy a claim refers to, and for a
    claim that passes every other check (fresh id, incident within the
    policy period, positive amount, submission not before the incident and
    at most 30 days after it), [create_claim] raises when the amount is
    strictly greater than the coverage amount and leaves the store as it
    was, and returns with the claim inserted when the amount equals the
    coverage amount.  The same holds for [create_claim] of the earlier
    engine, whose other checks are the first three. *)
Theorem create_claim_coverage_inclusive :
  (∀ (s : CMS) (claim : Claim.t) (policy : Policy.t),
     policies s !! Claim.policy_id claim = Some policy →
     claims s !! Claim.id claim = None →
     (Policy.start_date policy ≤ Claim.date_of_incident claim)%Z →
     (Claim.date_of_incident claim ≤ Policy.end_date policy)%Z →
     (0 < Claim.amount claim)%Q →
     (Claim.date_of_incident claim ≤ Claim.date_submitted claim)%Z →
     (days (Claim.date_submitted claim) (Claim.date_of_incident claim) ≤ 30)%Z →
     ((Policy.coverage_amount policy < Claim.amount claim)%Q →
      create_claim claim s
      = (s, Raise (ValidationError
                     (AmountOutOfRange (Policy.coverage_amount policy)))))
     ∧ ((Claim.amount claim == Policy.coverage_amount policy)%Q →
        create_claim claim s
        = (set_claims (<[Claim.id claim := claim]> (claims s)) s, Ok tt)))
  ∧ (∀ (s : CRUD.CMS) (claim : Claim.t) (policy : CRUD.Policy.t),
       CRUD.policies s !! Claim.policy_id claim = Some policy →
       CRUD.claims s !! Claim.id claim = None →
       (CRUD.Policy.start_date policy ≤ Claim.date_of_incident claim)%Z →
       (Claim.date_of_incident claim ≤ CRUD.Policy.end_date policy)%Z →
       (0 < Claim.amount claim)%Q →
       ((CRUD.Policy.coverage_amount policy < Claim.amount claim)%Q →
        CRUD.create_claim claim s
        = (s, Raise (ValidationError
                       (AmountOutOfRange (CRUD.Policy.coverage_amount policy)))))
       ∧ ((Claim.amount claim == CRUD.Policy.coverage_amount policy)%Q →
          CRUD.create_claim claim s
          = (CRUD.set_claims (<[Claim.id claim := claim]> (CRUD.claims s)) s,
             Ok tt))).
Proof.
  split.
  - intros s claim policy Hp Hc Hstart Hend Hpos Hsub Hdays.
    rewrite create_claim_eq, (_validate_claim_known _ _ _ Hp), Hc.
    unfold claim_verdict.
    replace (Claim.date_of_incident claim <? Policy.start_date policy)%Z
      with false by (symmetry; apply Z.ltb_ge; lia).
    replace (Policy.end_date policy <? Claim.date_of_incident claim)%Z
      with false by (symmetry; apply Z.ltb_ge; lia).
    replace (Qleb (Claim.amount claim) 0)
      with false by (symmetry; by apply Qleb_false).
    simpl. split.
    + intros Hgt. apply Qgtb_true in Hgt. by rewrite Hgt.
    + intros Heq.
      replace (Qgtb (Claim.amount claim) (Policy.coverage_amount policy))
        with false
        by (symmetry; apply Qgtb_false; rewrite Heq; apply Qle_refl).
      replace (Claim.date_submitted claim <? Claim.date_of_incident claim)%Z
        with false by (symmetry; apply Z.ltb_ge; lia).
      replace (30 <? days (Claim.date_submitted claim)
                          (Claim.date_of_incident claim))%Z
        with false by (symmetry; apply Z.ltb_ge; lia).
      done.
  - intros s claim policy Hp Hc Hstart Hend Hpos.
    rewrite (CRUD_create_claim_known _ _ _ Hp Hc).
    replace (Claim.date_of_incident claim <? CRUD.Policy.start_date policy)%Z
      with false by (symmetry; apply Z.ltb_ge; lia).
    replace (CRUD.Policy.end_date policy <? Claim.date_of_incident claim)%Z
      with false by (symmetry; apply Z.ltb_ge; lia).
    replace (Qleb (Claim.amount claim) 0)
      with false by (symmetry; by apply Qleb_false).
    simpl. split.
    + intros Hgt. apply Qgtb_true in Hgt. by rewrite Hgt.
    + intros Heq.
      replace (Qgtb (Claim.amount claim) (CRUD.Policy.coverage_amount policy))
        with false
        by (symmetry; apply Qgtb_false; rewrite Heq; apply Qle_refl).
      done.
Qed.

(** The two halves of C4 in the scenario of the test suites: 60000
    against a coverage of 50000 is refused, 50000 is stored; in both
    engines. *)
Lemma create_claim_coverage_inclusive_witness :
  create_claim claim_over_coverage store_policy
  = (store_policy, Raise (ValidationError (AmountOutOfRange 50000)))
  ∧ create_claim claim_full_coverage store_policy
    = (set_claims (<["CL002" := claim_full_coverage]> (claims store_policy))
         store_policy, Ok tt)
  ∧ CRUD.create_claim claim_over_coverage store_policy_crud
    = (store_policy_crud, Raise (ValidationError (AmountOutOfRange 50000)))
  ∧ CRUD.create_claim claim_full_coverage store_policy_crud
    = (CRUD.set_claims
         (<["CL002" := claim_full_coverage]> (CRUD.claims store_policy_crud))
         store_policy_crud, Ok tt).
Proof.
  destruct create_claim_coverage_inclusive as [Hapi Hcrud].
  assert (policies store_policy !! "POL001" = Some POL001) as Hp
    by (vm_compute; reflexivity).
  assert (CRUD.policies store_policy_crud !! "POL001" = Some POL001_crud)
    as Hp' by (vm_compute; reflexivity).
  split; [|split; [|split]].
  - apply (Hapi store_policy claim_over_coverage POL001 Hp);
      vm_compute; congruence.
  - apply (Hapi store_policy claim_full_coverage POL001 Hp);
      vm_compute; congruence.
  - apply (Hcrud store_policy_crud claim_over_coverage POL001_crud Hp');
      vm_compute; congruence.
  - apply (Hcrud store_policy_crud claim_full_coverage POL001_crud Hp');
      vm_compute; congruence.
Defined.

(** ** Creating a claim: the submission window *)

Lemma us_per_day_pos : (0 < us_per_day)%Z.
Proof. done. Qed.

(** [(a - b).days] exceeds [n] exactly when [a - b] is at least [n + 1]
    whole days. *)
Lemma days_gt (a b : datetime) (n : Z) :
  (n < days a b)%Z ↔ ((n + 1) * us_per_day ≤ a - b)%Z.
Proof.
  unfold days. pose proof us_per_day_pos as Hpos. split.
  - intros H.
    pose proof (Z.mul_div_le (a - b) us_per_day Hpos). nia.
  - intros H.
    assert (n + 1 ≤ (a - b) `div` us_per_day)%Z
      by (apply Z.div_le_lower_bound; lia).
    lia.
Qed.

Lemma days_exact (b : datetime) (n : Z) : days (b + n * us_per_day)%Z b = n.
Proof.
  unfold days. replace (b + n * us_per_day - b)%Z with (n * us_per_day)%Z by lia.
  by apply Z.div_mul.
Qed.

Lemma days_midnight (a b : Z) : days (midnight a) (midnight b) = (a - b)%Z.
Proof.
  unfold days, midnight. rewrite <- Z.mul_sub_distr_r. by apply Z.div_mul.
Qed.

(** C5, as the code has it.  For a claim on a stored policy that passes
    every other check (fresh id, incident within the policy period, amount
    positive and within the coverage), [create_claim] raises
    [BusinessRuleViolation] and leaves the store as it was when the whole
    days of [date_submitted - date_of_incident], its [.days], exceed 30,
    that is when the difference is 31 days or more; it inserts the claim
    when the submission is not before the incident and the whole days are
    at most 30, in particular when the difference is exactly 30 days. *)
Theorem create_claim_submission_window (s : CMS) (claim : Claim.t)
    (policy : Policy.t) :
  policies s !! Claim.policy_id claim = Some policy →
  claims s !! Claim.id claim = None →
  (Policy.start_date policy ≤ Claim.date_of_incident claim)%Z →
  (Claim.date_of_incident claim ≤ Policy.end_date policy)%Z →
  (0 < Claim.amount claim)%Q →
  (Claim.amount claim <= Policy.coverage_amount policy)%Q →
  let late := (Claim.date_submitted claim - Claim.date_of_incident claim)%Z in
  let stored := (set_claims (<[Claim.id claim := claim]> (claims s)) s, Ok tt) in
  ((30 < days (Claim.date_submitted claim) (Claim.date_of_incident claim))%Z →
   create_claim claim s = (s, Raise (BusinessRuleViolation LateSubmission)))
  ∧ ((31 * us_per_day ≤ late)%Z →
     create_claim claim s = (s, Raise (BusinessRuleViolation LateSubmission)))
  ∧ ((0 ≤ late)%Z → (late < 31 * us_per_day)%Z → create_claim claim s = stored)
  ∧ (late = (30 * us_per_day)%Z → create_claim claim s = stored).
Proof.
  intros Hp Hc Hstart Hend Hpos Hcov late stored.
  assert (create_claim claim s =
    if (Claim.date_submitted claim <? Claim.date_of_incident claim)%Z
    then (s, Raise (ValidationError SubmittedBeforeIncident))
    else if (30 <? days (Claim.date_submitted claim)
                        (Claim.date_of_incident claim))%Z
    then (s, Raise (BusinessRuleViolation LateSubmission))
    else stored) as ->.
  { rewrite create_claim_eq, (_validate_claim_known _ _ _ Hp), Hc.
    unfold claim_verdict.
    replace (Claim.date_of_incident claim <? Policy.start_date policy)%Z
      with false by (symmetry; apply Z.ltb_ge; lia).
    replace (Policy.end_date policy <? Claim.date_of_incident claim)%Z
      with false by (symmetry; apply Z.ltb_ge; lia).
    replace (Qleb (Claim.amount claim) 0)
      with false by (symmetry; by apply Qleb_false).
    replace (Qgtb (Claim.amount claim) (Policy.coverage_amount policy))
      with false by (symmetry; by apply Qgtb_false).
    simpl. case_ifs. }
  pose proof us_per_day_pos as Hday.
  assert (∀ n, (n < days (Claim.date_submitted claim)
                         (Claim.date_of_incident claim))%Z
               ↔ ((n + 1) * us_per_day ≤ late)%Z) as Hgt
    by (intros n; apply days_gt).
  split; [|split; [|split]].
  - intros Hlate.
    pose proof (proj1 (Hgt 30%Z) Hlate).
    replace (Claim.date_submitted claim <? Claim.date_of_incident claim)%Z
      with false by (symmetry; apply Z.ltb_ge; lia).
    by replace (30 <? days (Claim.date_submitted claim)
                           (Claim.date_of_incident claim))%Z
      with true by (symmetry; apply Z.ltb_lt; lia).
  - intros Hlate.
    pose proof (proj2 (Hgt 30%Z) Hlate).
    replace (Claim.date_submitted claim <? Claim.date_of_incident claim)%Z
      with false by (symmetry; apply Z.ltb_ge; lia).
    by replace (30 <? days (Claim.date_submitted claim)
                           (Claim.date_of_incident claim))%Z
      with true by (symmetry; apply Z.ltb_lt; lia).
  - intros H0 H31.
    replace (Claim.date_submitted claim <? Claim.date_of_incident claim)%Z
      with false by (symmetry; apply Z.ltb_ge; lia).
    replace (30 <? days (Claim.date_submitted claim)
                        (Claim.date_of_incident claim))%Z
      with false; [done|].
    symmetry. apply Z.ltb_ge. apply Z.nlt_ge. intros Hlt.
    apply Hgt in Hlt. lia.
  - intros H30.
    replace (Claim.date_submitted claim <? Claim.date_of_incident claim)%Z
      with false by (symmetry; apply Z.ltb_ge; lia).
    replace (30 <? days (Claim.date_submitted claim)
                        (Claim.date_of_incident claim))%Z
      with false; [done|].
    symmetry. apply Z.ltb_ge. apply Z.nlt_ge. intros Hlt.
    apply Hgt in Hlt. lia.
Qed.

(** C5 in the scenario: 31 days late is refused, 30 days to the
    microsecond is stored. *)
Lemma create_claim_submission_window_witness :
  create_claim claim_31_days store_policy
  = (store_policy, Raise (BusinessRuleViolation LateSubmission))
  ∧ create_claim claim_30_days store_policy
    = (set_claims (<["CL002" := claim_30_days]> (claims store_policy))
         store_policy, Ok tt).
Proof.
  split.
  - assert (policies store_policy !! Claim.policy_id claim_31_days
            = Some POL001) as Hp by by_computation.
    destruct (create_claim_submission_window store_policy claim_31_days
                POL001 Hp) as (Hlate & _); [by_computation..|].
    apply Hlate. by_computation.
  - assert (policies store_policy !! Claim.policy_id claim_30_days
            = Some POL001) as Hp by by_computation.
    destruct (create_claim_submission_window store_policy claim_30_days
                POL001 Hp) as (_ & _ & _ & Hexact); [by_computation..|].
    apply Hexact. by_computation.
Defined.

(** Against C5 as worded: this claim passes every other check and is
    submitted 30 days and 12 hours after the incident, which exceeds 30
    days, and [create_claim] stores it. *)
Lemma create_claim_30_days_12_hours_stored :
  policies store_policy !! Claim.policy_id claim_30_days_12_hours = Some POL001
  ∧ (30 * us_per_day
     < Claim.date_submitted claim_30_days_12_hours
       - Claim.date_of_incident claim_30_days_12_hours)%Z
  ∧ create_claim claim_30_days_12_hours store_policy
    = (set_claims (<["CL002" := claim_30_days_12_hours]> (claims store_policy))
         store_policy, Ok tt)
  ∧ get_claim "CL002"
      (create_claim claim_30_days_12_hours store_policy).1
    = Some claim_30_days_12_hours.
Proof. repeat split; by_computation. Qed.

(** ** Creating and re-validating a policy: the age rule *)

(** C6.  For a policy whose holder is stored and whose other checks pass
    (start before end, positive coverage and premium, and for a creation a
    fresh id), [create_policy] raises [BusinessRuleViolation] and leaves
    the store as it was when [(start_date - date_of_birth).days] is
    strictly less than 18 x 365, and inserts the policy when it is at least
    18 x 365; the re-validation that ends [update_policy] answers the same
    way on the record the update has produced. *)
Theorem policy_age_rule (s : CMS) (policy : Policy.t)
    (holder : Policyholder.t) :
  policyholders s !! Policy.policyholder_id policy = Some holder →
  (Policy.start_date policy < Policy.end_date policy)%Z →
  (0 < Policy.coverage_amount policy)%Q →
  (0 < Policy.premium policy)%Q →
  let age := days (Policy.start_date policy)
                  (Policyholder.date_of_birth holder) in
  (policies s !! Policy.id policy = None →
   ((age < 18 * 365)%Z →
    create_policy policy s
    = (s, Raise (BusinessRuleViolation UnderageAtStart)))
   ∧ ((18 * 365 ≤ age)%Z →
      create_policy policy s
      = (set_policies (<[Policy.id policy := policy]> (policies s)) s, Ok tt)))
  ∧ (∀ policy_id stored type start_date end_date coverage_amount premium,
       policies s !! policy_id = Some stored →
       policy = updated_policy type start_date end_date coverage_amount
                  premium stored →
       ((age < 18 * 365)%Z →
        update_policy policy_id type start_date end_date coverage_amount
          premium s
        = (set_policies (<[policy_id := policy]> (policies s)) s,
           Raise (BusinessRuleViolation UnderageAtStart)))
       ∧ ((18 * 365 ≤ age)%Z →
          update_policy policy_id type start_date end_date coverage_amount
            premium s
          = (set_policies (<[policy_id := policy]> (policies s)) s, Ok tt))).
Proof.
  intros Hh Hdates Hcov Hprem age.
  assert (policy_verdict policy holder =
          if (age <? 18 * 365)%Z
          then Raise (BusinessRuleViolation UnderageAtStart) else Ok tt) as Hv.
  { unfold policy_verdict.
    replace (Policy.end_date policy <=? Policy.start_date policy)%Z
      with false by (symmetry; apply Z.leb_gt; lia).
    replace (Qleb (Policy.coverage_amount policy) 0)
      with false by (symmetry; by apply Qleb_false).
    by replace (Qleb (Policy.premium policy) 0)
      with false by (symmetry; by apply Qleb_false). }
  split.
  - intros Hfresh.
    rewrite create_policy_eq, (_validate_policy_known _ _ _ Hh), Hv, Hfresh.
    split; intros Hage.
    + by replace (age <? 18 * 365)%Z with true by (symmetry; by apply Z.ltb_lt).
    + by replace (age <? 18 * 365)%Z with false by (symmetry; by apply Z.ltb_ge).
  - intros policy_id stored type start_date end_date coverage_amount premium
      Hstored ->.
    rewrite (update_policy_known _ _ _ _ _ _ _ _ Hstored).
    rewrite (_validate_policy_known _ holder) by done.
    simpl. rewrite Hv.
    split; intros Hage.
    + by replace (age <? 18 * 365)%Z with true by (symmetry; by apply Z.ltb_lt).
    + by replace (age <? 18 * 365)%Z with false by (symmetry; by apply Z.ltb_ge).
Qed.

(** C6 in a store with a holder aged 18 x 365 days on 2023-01-01 and one
    a day younger: the policy of the first is stored, that of the second
    is refused; moving the start of the stored policy a day back is
    refused by the re-validation. *)
Lemma policy_age_rule_witness :
  create_policy (POL_of "PH003") store_ages
  = (store_ages, Raise (BusinessRuleViolation UnderageAtStart))
  ∧ create_policy (POL_of "PH002") store_ages
    = (set_policies (<["POL003" := POL_of "PH002"]> (policies store_ages))
         store_ages, Ok tt)
  ∧ (update_policy "POL003" None (Some (midnight 19357)) None None None
       store_ages_policy).2
    = Raise (BusinessRuleViolation UnderageAtStart).
Proof.
  split; [|split].
  - assert (policyholders store_ages
              !! Policy.policyholder_id (POL_of "PH003")
            = Some PH_6569_days) as Hh by by_computation.
    destruct (policy_age_rule store_ages (POL_of "PH003") PH_6569_days Hh)
      as [Hcreate _]; [by_computation..|].
    apply Hcreate; by_computation.
  - assert (policyholders store_ages
              !! Policy.policyholder_id (POL_of "PH002")
            = Some PH_6570_days) as Hh by by_computation.
    destruct (policy_age_rule store_ages (POL_of "PH002") PH_6570_days Hh)
      as [Hcreate _]; [by_computation..|].
    apply Hcreate; by_computation.
  - assert (policyholders store_ages_policy !! "PH002" = Some PH_6570_days)
      as Hh by by_computation.
    destruct (policy_age_rule store_ages_policy
                (Policy.set_start_date (midnight 19357) (POL_of "PH002"))
                PH_6570_days Hh)
      as [_ Hupdate]; [by_computation..|].
    destruct (Hupdate "POL003" (POL_of "PH002") None (Some (midnight 19357))
                None None None) as [Hyoung _]; [by_computation..|].
    rewrite Hyoung; [done|by_computation].
Defined.

(** ** The two format validators *)

(** C7, as the code has it.  [_validate_email] returns exactly on the
    strings that begin with [x@y.z], where [x], [y] and [z] are non-empty
    and contain no '@'; what follows that prefix is not examined.  On
    every other string it raises [ValidationError] ("Invalid email
    format").  The store is never touched. *)
Theorem validate_email_accepts {St} (email : string) (s : St) :
  (_validate_email email s = (s, Ok tt) ↔ email_prefix_shape email)
  ∧ (¬ email_prefix_shape email →
     _validate_email email s = (s, Raise (ValidationError InvalidEmail))).
Proof.
  unfold _validate_email. rewrite raise_if_eq, <- email_re_spec.
  destruct (re_match email_re email); simpl; by split.
Qed.

Lemma validate_email_accepts_witness :
  _validate_email "john@example.com" empty_CMS = (empty_CMS, Ok tt)
  ∧ _validate_email "invalid_email" empty_CMS
    = (empty_CMS, Raise (ValidationError InvalidEmail)).
Proof.
  split.
  - apply (validate_email_accepts "john@example.com" empty_CMS).
    exists "john", "example", "com", "". repeat split; done.
  - apply (validate_email_accepts "invalid_email" empty_CMS).
    rewrite <- email_re_spec. by_computation.
Defined.

(** Against C7 as worded: a string with a second '@' after the domain is
    not of the shape local@domain.tld, and the validator accepts it. *)
Lemma validate_email_second_at_accepted :
  spec_email_shape "john@example.com@evil" = false
  ∧ _validate_email "john@example.com@evil" empty_CMS = (empty_CMS, Ok tt).
Proof. split; by_computation. Qed.

(** On strings of 8-bit characters, where [\d] is [0-9], the phone
    validator returns exactly on the strings made of an optional '+',
    then an optional '1', then 9 to 15 digits, then possibly one final
    newline, and raises [ValidationError] ("Invalid phone number format")
    on every other. *)
Theorem validate_phone_number_accepts {St} (phone : string) (s : St) :
  (_validate_phone_number phone s = (s, Ok tt) ↔ phone_shape phone)
  ∧ (¬ phone_shape phone →
     _validate_phone_number phone s
     = (s, Raise (ValidationError InvalidPhone))).
Proof.
  unfold _validate_phone_number. rewrite raise_if_eq, <- phone_re_spec.
  destruct (re_match phone_re phone); simpl; by split.
Qed.

Lemma validate_phone_number_accepts_witness :
  _validate_phone_number "+1234567890" empty_CMS = (empty_CMS, Ok tt)
  ∧ _validate_phone_number "123-456-7890" empty_CMS
    = (empty_CMS, Raise (ValidationError InvalidPhone)).
Proof.
  split.
  - apply (validate_phone_number_accepts "+1234567890" empty_CMS).
    exists "+", "1", "234567890", "". repeat split; auto; simpl; lia.
  - apply (validate_phone_number_accepts "123-456-7890" empty_CMS).
    rewrite <- phone_re_spec. by_computation.
Defined.

(** Against C8 as worded: a '+' followed by nine digits of which the
    first is not '1', and a '1' followed by fifteen digits, are not an
    optional "+1" followed by 9 to 15 digits, and the validator accepts
    both. *)
Lemma validate_phone_number_plus_alone_accepted :
  spec_phone_shape "+234567890" = false
  ∧ _validate_phone_number "+234567890" empty_CMS = (empty_CMS, Ok tt)
  ∧ spec_phone_shape "1234567890123456" = false
  ∧ _validate_phone_number "1234567890123456" empty_CMS = (empty_CMS, Ok tt).
Proof. repeat split; by_computation. Qed.

(** *** The phone pattern on strings of any characters *)

Lemma Unicode_rep_spec c k lo hi (s : Unicode.str) :
  Unicode.rep c k lo hi s = true ↔
  ∃ u v, s = (u ++ v)%list ∧ forallb c u = true ∧ lo ≤ List.length u
         ∧ within hi (List.length u) ∧ k v = true.
Proof.
  revert lo hi. induction s as [|a s IH]; intros lo hi.
  - simpl. rewrite orb_false_r. split.
    + destruct lo; [|done]. intros Hk. exists [], [].
      destruct hi; simpl; repeat split; auto; lia.
    + intros (u & v & Hs & _ & Hlo & _ & Hk).
      destruct u; [|done]. simpl in *. subst v.
      destruct lo; [done|lia].
  - simpl. rewrite orb_true_iff, andb_true_iff. split.
    + intros [Hk | [Ha Hr]].
      * destruct lo; [|done]. exists [], (a :: s).
        destruct hi; simpl; repeat split; auto; lia.
      * assert (∃ hi', Unicode.rep c k (pred lo) hi' s = true
                       ∧ ∀ n, within hi' n → within hi (S n))
          as (hi' & Hr' & Hhi).
        { destruct hi as [[|h]|]; [done| |].
          - exists (Some h). split; [done|]. simpl. lia.
          - exists None. done. }
        apply IH in Hr' as (u & v & -> & Hu & Hlo & Hw & Hk).
        exists (a :: u), v. simpl. rewrite Ha, Hu.
        repeat split; auto. lia.
    + intros (u & v & Hs & Hu & Hlo & Hw & Hk).
      destruct u as [|b u]; simpl in *.
      * left. subst v. destruct lo; [done|lia].
      * right. injection Hs as -> ->.
        apply andb_true_iff in Hu as [Hb Hu]. split; [done|].
        destruct hi as [[|h]|]; simpl in Hw; [lia| |];
          apply IH; exists u, v; simpl; repeat split; auto; lia.
Qed.

Lemma Unicode_all_opt a (u : Unicode.str) :
  forallb (N.eqb a) u = true ∧ List.length u ≤ 1 ↔ u = [] ∨ u = [a].
Proof.
  split.
  - intros (Hu & H2). destruct u as [|b [|? ?]]; simpl in *; try lia; auto.
    rewrite andb_true_r in Hu. apply N.eqb_eq in Hu. subst. auto.
  - intros [-> | ->]; simpl; [auto|]. rewrite N.eqb_refl. auto.
Qed.

Lemma Unicode_at_end_spec (s : Unicode.str) :
  Unicode.at_end s = true ↔ s = [] ∨ s = [10%N].
Proof.
  destruct s as [|a [|? ?]]; simpl; split; auto.
  - intros H. apply N.eqb_eq in H. subst. auto.
  - intros [|H]; [done|]. injection H as ->. done.
  - done.
  - intros [|]; done.
Qed.

Local Ltac Unicode_rep_split u v :=
  apply Unicode_rep_spec; exists u, v;
  split; [done|]; split; [done|];
  split; [first [done | simpl; lia]|];
  split; [first [done | simpl; lia]|].

Lemma Unicode_phone_re_spec isdecimal s :
  Unicode.re_match (Unicode.phone_re isdecimal) s = true
  ↔ Unicode.phone_shape isdecimal s.
Proof.
  unfold Unicode.re_match, Unicode.phone_re, Unicode.phone_shape, Unicode.opt.
  simpl. split.
  - intros H.
    apply Unicode_rep_spec in H as (p & v1 & -> & Hp & _ & Lp & H).
    apply Unicode_rep_spec in H as (o & v2 & -> & Ho & _ & Lo & H).
    apply Unicode_rep_spec in H as (d & n & -> & Hd & Ld1 & Ld2 & H).
    apply andb_true_iff in H as [H _]. apply Unicode_at_end_spec in H.
    simpl in Lp, Lo, Ld2.
    exists p, o, d, n. repeat split; auto.
    + by apply (Unicode_all_opt 43%N).
    + by apply (Unicode_all_opt 49%N).
  - intros (p & o & d & n & -> & Hp & Ho & Hd & L1 & L2 & Hn).
    apply (Unicode_all_opt 43%N) in Hp as [Hp Lp].
    apply (Unicode_all_opt 49%N) in Ho as [Ho Lo].
    Unicode_rep_split p (o ++ d ++ n)%list.
    Unicode_rep_split o (d ++ n)%list.
    Unicode_rep_split d n.
    apply andb_true_iff. split; [|done]. by apply Unicode_at_end_spec.
Qed.

(** On the code points of a string of 8-bit characters the matcher
    answers as the matcher on such strings does, class for class. *)
Lemma Unicode_rep_of_string cu c ku k lo hi s :
  (∀ a, cu (N_of_ascii a) = c a) →
  (∀ v, ku (Unicode.of_string v) = k v) →
  Unicode.rep cu ku lo hi (Unicode.of_string s) = rep c k lo hi s.
Proof.
  intros Hc Hk. revert lo hi. induction s as [|a s IH]; intros lo hi.
  - simpl. by rewrite <- Hk.
  - change (Unicode.of_string (String a s))
      with (N_of_ascii a :: Unicode.of_string s).
    simpl. rewrite Hc, <- Hk.
    change (N_of_ascii a :: Unicode.of_string s)
      with (Unicode.of_string (String a s)).
    destruct hi as [[|h]|]; by rewrite ?IH.
Qed.

Lemma N_eqb_of_ascii a b : N.eqb (N_of_ascii a) (N_of_ascii b) = Ascii.eqb a b.
Proof.
  destruct (Ascii.eqb_spec a b) as [->|Hne].
  - apply N.eqb_refl.
  - apply N.eqb_neq. intros H. apply Hne.
    rewrite <- (ascii_N_embedding a), <- (ascii_N_embedding b). by rewrite H.
Qed.

Lemma Unicode_at_end_of_string s :
  Unicode.at_end (Unicode.of_string s) = at_end s.
Proof.
  destruct s as [|a [|b s]]; [done| |done].
  apply (N_eqb_of_ascii a "010").
Qed.

(** The engine's phone pattern is the pattern on code points, read on the
    strings whose characters are below 256: there, a table of decimal
    digits holds [0-9] and nothing else. *)
Lemma validate_phone_number_of_string {St} isdecimal (phone : string) (s : St) :
  (∀ a, isdecimal (N_of_ascii a) = is_digit a) →
  Unicode._validate_phone_number isdecimal (Unicode.of_string phone) s
  = _validate_phone_number phone s.
Proof.
  intros Hd. unfold Unicode._validate_phone_number, _validate_phone_number.
  f_equal. f_equal.
  unfold Unicode.re_match, re_match, Unicode.phone_re, phone_re, Unicode.opt,
    opt.
  simpl.
  apply Unicode_rep_of_string; [apply (N_eqb_of_ascii "+")|intros v1].
  apply Unicode_rep_of_string; [apply (N_eqb_of_ascii "1")|intros v2].
  apply Unicode_rep_of_string; [done|intros v3].
  by rewrite Unicode_at_end_of_string.
Qed.

Lemma three_ranges_8bit a :
  Unicode.three_ranges (N_of_ascii a) = is_digit a.
Proof. by destruct a as [[] [] [] [] [] [] [] []]. Qed.

(** C8, as the code has it.  [_validate_phone_number] returns exactly on
    the strings made of an optional '+', then an optional '1', then 9 to
    15 decimal digits, then possibly one final newline; the '+' and the
    '1' are optional independently of each other, a leading '1' is not one
    of the 9 to 15 digits, and a digit is any character that [\d] matches:
    a decimal digit of any script, [0-9] among them.  On every other
    string it raises [ValidationError] ("Invalid phone number format").
    The store is never touched. *)
Theorem validate_phone_number_unicode_accepts {St} (isdecimal : N → bool)
    (phone : Unicode.str) (s : St) :
  (Unicode._validate_phone_number isdecimal phone s = (s, Ok tt)
   ↔ Unicode.phone_shape isdecimal phone)
  ∧ (¬ Unicode.phone_shape isdecimal phone →
     Unicode._validate_phone_number isdecimal phone s
     = (s, Raise (ValidationError InvalidPhone))).
Proof.
  unfold Unicode._validate_phone_number.
  rewrite raise_if_eq, <- Unicode_phone_re_spec.
  destruct (Unicode.re_match _ phone); simpl; by split.
Qed.

(** C8 on "+1234567890", on nine Arabic-Indic digits and on
    "123-456-7890". *)
Lemma validate_phone_number_unicode_accepts_witness :
  Unicode._validate_phone_number Unicode.three_ranges
    (Unicode.of_string "+1234567890") empty_CMS = (empty_CMS, Ok tt)
  ∧ Unicode._validate_phone_number Unicode.three_ranges
      (repeat 1633%N 9) empty_CMS = (empty_CMS, Ok tt)
  ∧ Unicode._validate_phone_number Unicode.three_ranges
      (Unicode.of_string "123-456-7890") empty_CMS
    = (empty_CMS, Raise (ValidationError InvalidPhone)).
Proof.
  split; [|split].
  - apply (validate_phone_number_unicode_accepts Unicode.three_ranges
             (Unicode.of_string "+1234567890") empty_CMS).
    exists [43%N], [49%N], (Unicode.of_string "234567890"), [].
    repeat split; auto; simpl; lia.
  - apply (validate_phone_number_unicode_accepts Unicode.three_ranges
             (repeat 1633%N 9) empty_CMS).
    exists [], [], (repeat 1633%N 9), [].
    repeat split; auto; simpl; lia.
  - apply (validate_phone_number_unicode_accepts Unicode.three_ranges
             (Unicode.of_string "123-456-7890") empty_CMS).
    rewrite <- Unicode_phone_re_spec. by_computation.
Defined.

(** ** Deletions and their cascades *)

Lemma lookup_without {V} (p : V → bool) (m : gmap string V) k :
  without p m !! k
  = match m !! k with
    | Some v => if p v then None else Some v
    | None => None
    end.
Proof.
  unfold without. rewrite map_lookup_filter.
  destruct (m !! k) as [v|]; simpl; [|done].
  destruct (p v); by case_guard.
Qed.

Lemma without_ext {V} (p q : V → bool) (m : gmap string V) :
  (∀ k v, m !! k = Some v → p v = q v) → without p m = without q m.
Proof.
  intros H. apply map_eq. intros k. rewrite !lookup_without.
  destruct (m !! k) as [v|] eqn:Hk; [|done]. by rewrite (H k v Hk).
Qed.

Lemma without_none {V} (p : V → bool) (m : gmap string V) :
  (∀ k v, m !! k = Some v → p v = false) → without p m = m.
Proof.
  intros H. apply map_eq. intros k. rewrite lookup_without.
  destruct (m !! k) as [v|] eqn:Hk; [|done]. by rewrite (H k v Hk).
Qed.

Lemma without_without {V} (p q : V → bool) (m : gmap string V) :
  without q (without p m) = without (λ v, p v || q v) m.
Proof.
  apply map_eq. intros k. rewrite !lookup_without.
  destruct (m !! k) as [v|]; [|done]. by destruct (p v).
Qed.

Lemma lookup_delete_all {V} l (m : gmap string V) k :
  delete_all l m !! k = if decide (k ∈ l) then None else m !! k.
Proof.
  unfold delete_all. revert m. induction l as [|x l IH]; intros m; simpl.
  - done.
  - rewrite IH, lookup_delete.
    destruct (decide (x = k)) as [->|Hne].
    + rewrite (decide_True _ _ (list_elem_of_here k l)).
      by destruct (decide (k ∈ l)).
    + destruct (decide (k ∈ l)) as [Hin|Hin].
      * by rewrite (decide_True _ _ (list_elem_of_further k x l Hin)).
      * rewrite decide_False; [done|].
        intros [?|?]%elem_of_cons; congruence.
Qed.

Lemma elem_of_keys_where {V} (p : V → bool) (m : gmap string V) k :
  k ∈ keys_where p m ↔ ∃ v, m !! k = Some v ∧ p v = true.
Proof.
  unfold keys_where. rewrite list_elem_of_fmap. split.
  - intros ([k' v] & -> & H). apply list_elem_of_filter in H as [Hp H].
    apply elem_of_map_to_list in H. eauto.
  - intros (v & H & Hp). exists (k, v). split; [done|].
    apply list_elem_of_filter. split; [done|]. by apply elem_of_map_to_list.
Qed.

Lemma NoDup_keys_where {V} (p : V → bool) (m : gmap string V) :
  NoDup (keys_where p m).
Proof.
  unfold keys_where. apply NoDup_fmap_fst.
  - intros k v1 v2 H1 H2.
    apply list_elem_of_filter in H1 as [_ H1], H2 as [_ H2].
    exact (map_to_list_unique m k v1 v2 H1 H2).
  - apply NoDup_filter, NoDup_map_to_list.
Qed.

Lemma delete_all_keys_where {V} (p : V → bool) (m : gmap string V) :
  delete_all (keys_where p m) m = without p m.
Proof.
  apply map_eq. intros k. rewrite lookup_delete_all, lookup_without.
  case_decide as H.
  - apply elem_of_keys_where in H as (v & -> & ->). done.
  - destruct (m !! k) as [v|] eqn:Hk; [|done].
    destruct (p v) eqn:Hp; [|done].
    destruct H. apply elem_of_keys_where. eauto.
Qed.

Lemma delete_claim_known claim_id claim s :
  claims s !! claim_id = Some claim →
  delete_claim claim_id s = (set_claims (delete claim_id (claims s)) s, Ok tt).
Proof. intros H. unfold delete_claim. step. by rewrite H. Qed.

Lemma delete_claim_unknown claim_id s :
  claims s !! claim_id = None →
  delete_claim claim_id s
  = (s, Raise (ValidationError (ClaimMissing claim_id))).
Proof. intros H. unfold delete_claim. step. by rewrite H. Qed.

(** The loop of [delete_policy] never raises: its ids are distinct keys
    of the claims. *)
Lemma for_each_delete_claim l s :
  NoDup l → (∀ k, k ∈ l → is_Some (claims s !! k)) →
  for_each l delete_claim s = (set_claims (delete_all l (claims s)) s, Ok tt).
Proof.
  revert s. induction l as [|x l IH]; intros s Hdup Hin; simpl.
  - by destruct s.
  - apply NoDup_cons in Hdup as [Hx Hdup].
    destruct (Hin x) as [c Hc]; [apply list_elem_of_here|].
    unfold bind. rewrite (delete_claim_known _ _ _ Hc).
    rewrite IH; [done|done|].
    intros k Hk. simpl. rewrite lookup_delete_ne by congruence.
    by apply Hin, list_elem_of_further.
Qed.

Lemma delete_policy_known policy_id policy s :
  policies s !! policy_id = Some policy →
  delete_policy policy_id s
  = (mkCMS (policyholders s) (delete policy_id (policies s))
       (without (is_claim_on policy_id) (claims s)), Ok tt).
Proof.
  intros H. unfold delete_policy. step. rewrite H. simpl.
  rewrite for_each_delete_claim.
  - simpl. by rewrite delete_all_keys_where.
  - apply NoDup_keys_where.
  - intros k Hk. apply elem_of_keys_where in Hk as (v & Hv & _). eauto.
Qed.

Lemma delete_policy_unknown policy_id s :
  policies s !! policy_id = None →
  delete_policy policy_id s
  = (s, Raise (ValidationError (PolicyMissing policy_id))).
Proof. intros H. unfold delete_policy. step. by rewrite H. Qed.

(** The loop of [delete_policyholder] never raises either. *)
Lemma for_each_delete_policy l s :
  NoDup l → (∀ k, k ∈ l → is_Some (policies s !! k)) →
  for_each l delete_policy s
  = (mkCMS (policyholders s) (delete_all l (policies s))
       (without (λ claim, bool_decide (Claim.policy_id claim ∈ l)) (claims s)),
     Ok tt).
Proof.
  revert s. induction l as [|x l IH]; intros s Hdup Hin; simpl.
  - rewrite without_none; [by destruct s|].
    done.
  - apply NoDup_cons in Hdup as [Hx Hdup].
    destruct (Hin x) as [p Hp]; [apply list_elem_of_here|].
    unfold bind. rewrite (delete_policy_known _ _ _ Hp).
    rewrite IH; [|done|]; simpl.
    + rewrite without_without.
      rewrite (without_ext _ (λ claim,
                 bool_decide (Claim.policy_id claim ∈ x :: l))); [done|].
      intros k c _. unfold is_claim_on.
      destruct (String.eqb_spec (Claim.policy_id c) x) as [->|Hne]; simpl.
      * symmetry. apply bool_decide_eq_true_2, list_elem_of_here.
      * apply bool_decide_ext. rewrite elem_of_cons.
        split; [auto|]. intros [?|?]; [congruence|done].
    + intros k Hk. rewrite lookup_delete_ne by congruence.
      by apply Hin, list_elem_of_further.
Qed.

Lemma delete_policyholder_known policyholder_id holder s :
  policyholders s !! policyholder_id = Some holder →
  delete_policyholder policyholder_id s
  = (mkCMS (delete policyholder_id (policyholders s))
       (without (is_policy_of policyholder_id) (policies s))
       (without (is_claim_of s policyholder_id) (claims s)), Ok tt).
Proof.
  intros H. unfold delete_policyholder. step. rewrite H. simpl.
  rewrite for_each_delete_policy.
  - simpl. rewrite delete_all_keys_where.
    rewrite (without_ext _ (is_claim_of s policyholder_id)); [done|].
    intros k c _. unfold is_claim_of, is_policy_of.
    destruct (policies s !! Claim.policy_id c) as [p|] eqn:Hp.
    + destruct (Policy.policyholder_id p =? policyholder_id)%string eqn:Hof.
      * apply bool_decide_eq_true_2, elem_of_keys_where. eauto.
      * apply bool_decide_eq_false_2.
        intros (p' & Hp' & Hof')%elem_of_keys_where. congruence.
    + apply bool_decide_eq_false_2.
      intros (p' & Hp' & Hof')%elem_of_keys_where. congruence.
  - apply NoDup_keys_where.
  - intros k Hk. apply elem_of_keys_where in Hk as (v & Hv & _). eauto.
Qed.

Lemma delete_policyholder_unknown policyholder_id s :
  policyholders s !! policyholder_id = None →
  delete_policyholder policyholder_id s
  = (s, Raise (ValidationError (PolicyholderMissing policyholder_id))).
Proof. intros H. unfold delete_policyholder. step. by rewrite H. Qed.

(** C3, as the code has it.  In a store that holds a policyholder, a
    policy of that holder and a claim on that policy,
    [delete_policyholder] returns, and afterwards the three reads answer
    [None].  The cascade is not limited to these three records: every
    other policy of the holder and every claim on a policy of the holder
    go as well.  Nothing else is removed, changed or added: the other
    policyholders, the policies of other holders and the claims on
    policies of other holders (or on no stored policy) read as before. *)
Theorem delete_policyholder_cascade (s : CMS)
    (policyholder_id policy_id claim_id : string)
    (holder : Policyholder.t) (policy : Policy.t) (claim : Claim.t) :
  policyholders s !! policyholder_id = Some holder →
  policies s !! policy_id = Some policy →
  Policy.policyholder_id policy = policyholder_id →
  claims s !! claim_id = Some claim →
  Claim.policy_id claim = policy_id →
  let s' := (delete_policyholder policyholder_id s).1 in
  (delete_policyholder policyholder_id s).2 = Ok tt
  ∧ get_policyholder policyholder_id s' = None
  ∧ get_policy policy_id s' = None
  ∧ get_claim claim_id s' = None
  ∧ (∀ k, k ≠ policyholder_id → get_policyholder k s' = get_policyholder k s)
  ∧ (∀ k, get_policy k s'
          = match get_policy k s with
            | Some p => if is_policy_of policyholder_id p then None else Some p
            | None => None
            end)
  ∧ (∀ k, get_claim k s'
          = match get_claim k s with
            | Some c => if is_claim_of s policyholder_id c then None else Some c
            | None => None
            end).
Proof.
  intros Hh Hp Hof Hc Hon s'. subst s'.
  rewrite (delete_policyholder_known _ _ _ Hh).
  unfold get_policyholder, get_policy, get_claim. simpl.
  assert (is_policy_of policyholder_id policy = true) as Hpol
    by (by apply String.eqb_eq).
  assert (is_claim_of s policyholder_id claim = true) as Hcl
    by (unfold is_claim_of; by rewrite Hon, Hp).
  repeat split.
  - apply lookup_delete_eq.
  - by rewrite lookup_without, Hp, Hpol.
  - by rewrite lookup_without, Hc, Hcl.
  - intros k Hk. by apply lookup_delete_ne.
  - intros k. apply lookup_without.
  - intros k. apply lookup_without.
Qed.

Lemma delete_policyholder_cascade_witness :
  let s' := (delete_policyholder "PH001" store_claim).1 in
  (delete_policyholder "PH001" store_claim).2 = Ok tt
  ∧ get_policyholder "PH001" s' = None
  ∧ get_policy "POL001" s' = None
  ∧ get_claim "CL001" s' = None.
Proof.
  assert (policyholders store_claim !! "PH001" = Some PH001) as Hh
    by by_computation.
  assert (policies store_claim !! "POL001" = Some POL001) as Hp
    by by_computation.
  assert (claims store_claim !! "CL001" = Some CL001) as Hc
    by by_computation.
  destruct (delete_policyholder_cascade store_claim "PH001" "POL001" "CL001"
              PH001 POL001 CL001 Hh Hp eq_refl Hc eq_refl)
    as (Hok & H1 & H2 & H3 & _).
  exact (conj Hok (conj H1 (conj H2 H3))).
Defined.

(** Against C3 as worded: the store holds the holder PH001, the policy
    POL001 of PH001 and the claim CL001 on POL001, and besides them the
    policy POL002 of PH001; deleting PH001 removes POL002 too, a record
    other than the three. *)
Lemma delete_policyholder_removes_other_policy :
  get_policyholder "PH001" store_two_policies = Some PH001
  ∧ get_policy "POL001" store_two_policies = Some POL001
  ∧ Policy.policyholder_id POL001 = "PH001"
  ∧ get_claim "CL001" store_two_policies = Some CL001
  ∧ Claim.policy_id CL001 = "POL001"
  ∧ get_policy "POL002" store_two_policies = Some POL002
  ∧ (delete_policyholder "PH001" store_two_policies).2 = Ok tt
  ∧ get_policy "POL002" (delete_policyholder "PH001" store_two_policies).1
    = None.
Proof. repeat split; by_computation. Qed.

(** ** The policyholder operations in closed form *)

Lemma _validate_email_eq {St} email (s : St) :
  _validate_email email s = (s, email_verdict email).
Proof.
  unfold _validate_email, email_verdict. rewrite raise_if_eq.
  by destruct (re_match email_re email).
Qed.

Lemma _validate_phone_number_eq {St} phone (s : St) :
  _validate_phone_number phone s = (s, phone_verdict phone).
Proof.
  unfold _validate_phone_number, phone_verdict. rewrite raise_if_eq.
  by destruct (re_match phone_re phone).
Qed.

Lemma _validate_date_of_birth_eq now now' date_of_birth s :
  _validate_date_of_birth now now' date_of_birth s
  = (s, date_of_birth_verdict now now' date_of_birth).
Proof.
  unfold _validate_date_of_birth, date_of_birth_verdict. step. case_ifs.
Qed.

Lemma _validate_policyholder_store now now' policyholder s :
  (_validate_policyholder now now' policyholder s).1 = s.
Proof.
  unfold _validate_policyholder, bind.
  rewrite _validate_email_eq. destruct (email_verdict _); [|done].
  rewrite _validate_phone_number_eq. destruct (phone_verdict _); [|done].
  by rewrite _validate_date_of_birth_eq.
Qed.

Lemma create_policyholder_eq now now' policyholder s :
  create_policyholder now now' policyholder s =
  match _validate_policyholder now now' policyholder s with
  | (_, Raise e) => (s, Raise e)
  | (_, Ok _) =>
      match policyholders s !! Policyholder.id policyholder with
      | Some _ =>
          (s, Raise (ValidationError
                       (PolicyholderExists (Policyholder.id policyholder))))
      | None =>
          (set_policyholders
             (<[Policyholder.id policyholder := policyholder]>
                (policyholders s)) s, Ok tt)
      end
  end.
Proof.
  unfold create_policyholder. unfold bind at 1.
  pose proof (_validate_policyholder_store now now' policyholder s) as Hs.
  destruct (_validate_policyholder now now' policyholder s) as [s' [[]|e]];
    simpl in Hs; subst s'; [|done].
  step. by destruct (policyholders s !! Policyholder.id policyholder).
Qed.

Lemma update_policyholder_unknown now now' policyholder_id name
    contact_number email date_of_birth s :
  policyholders s !! policyholder_id = None →
  update_policyholder now now' policyholder_id name contact_number email
    date_of_birth s
  = (s, Raise (ValidationError (PolicyholderMissing policyholder_id))).
Proof. intros H. unfold update_policyholder. step. by rewrite H. Qed.

Lemma update_policyholder_known now now' policyholder_id name
    contact_number email date_of_birth s holder :
  policyholders s !! policyholder_id = Some holder →
  let r := updated_policyholder now now' name contact_number email
             date_of_birth holder in
  update_policyholder now now' policyholder_id name contact_number email
    date_of_birth s
  = (set_policyholders (<[policyholder_id := r.1]> (policyholders s)) s, r.2).
Proof.
  intros H r. subst r.
  unfold update_policyholder, updated_policyholder, checked,
    setattr_policyholder.
  step. rewrite H. simpl.
  destruct (truthy name), (truthy contact_number) as [c|],
    (truthy email) as [e|], date_of_birth as [d|]; simpl;
    unfold bind; simpl;
    rewrite ?_validate_phone_number_eq;
    try destruct (phone_verdict c) as [[]|?]; simpl;
    rewrite ?_validate_email_eq;
    try destruct (email_verdict e) as [[]|?]; simpl;
    rewrite ?_validate_date_of_birth_eq;
    try destruct (date_of_birth_verdict now now' d) as [[]|?]; simpl;
    unfold modify;
    repeat first
      [ progress simpl
      | rewrite (alter_Some _ _ _ _ H)
      | rewrite alter_insert_eq
      | rewrite set_policyholders_set_policyholders
      | rewrite (set_policyholders_id _ _ _ H) ];
    done.
Qed.

(** ** The store after an operation *)

Lemma set_policyholders_same s : set_policyholders (policyholders s) s = s.
Proof. by destruct s. Qed.

Lemma set_policies_same s : set_policies (policies s) s = s.
Proof. by destruct s. Qed.

Lemma set_claims_same s : set_claims (claims s) s = s.
Proof. by destruct s. Qed.

(** An update leaves the store with its assignments made, whether it
    returns or raises. *)
Lemma after_update o s : is_update o = true → after o s = applied o s.
Proof.
  destruct o; try done; intros _; unfold after; simpl.
  - destruct (policyholders s !! policyholder_id) as [h|] eqn:H.
    + rewrite (update_policyholder_known _ _ _ _ _ _ _ _ _ H). simpl.
      by rewrite (alter_Some _ _ _ _ H).
    + rewrite update_policyholder_unknown by done. simpl.
      by rewrite alter_id', set_policyholders_same.
  - destruct (policies s !! policy_id) as [p|] eqn:H.
    + rewrite (update_policy_known _ _ _ _ _ _ _ _ H). simpl.
      by rewrite (alter_Some _ _ _ _ H).
    + rewrite update_policy_unknown by done. simpl.
      by rewrite alter_id', set_policies_same.
  - destruct (claims s !! claim_id) as [c|] eqn:H.
    + rewrite (update_claim_known _ _ _ _ _ _ H). simpl.
      by rewrite (alter_Some _ _ _ _ H).
    + rewrite update_claim_unknown by done. simpl.
      by rewrite alter_id', set_claims_same.
Qed.

(** A creation or a deletion either returns with its change made, or
    raises with the store as it was. *)
Lemma after_atomic o s :
  is_update o = false →
  (outcome o s = Ok tt ∧ after o s = applied o s)
  ∨ (∃ e, outcome o s = Raise e ∧ after o s = s).
Proof.
  destruct o; try done; intros _; unfold outcome, after; simpl.
  - rewrite create_policyholder_eq.
    destruct (_validate_policyholder now now' policyholder s) as [? [[]|e]];
      [|by eauto].
    destruct (policyholders s !! Policyholder.id policyholder); by eauto.
  - destruct (policyholders s !! policyholder_id) as [h|] eqn:H.
    + rewrite (delete_policyholder_known _ _ _ H). by left.
    + rewrite delete_policyholder_unknown by done. by eauto.
  - rewrite create_policy_eq.
    destruct (_validate_policy policy s) as [? [[]|e]]; [|by eauto].
    destruct (policies s !! Policy.id policy); by eauto.
  - destruct (policies s !! policy_id) as [p|] eqn:H.
    + rewrite (delete_policy_known _ _ _ H). by left.
    + rewrite delete_policy_unknown by done. by eauto.
  - rewrite create_claim_eq.
    destruct (_validate_claim claim s) as [? [[]|e]]; [|by eauto].
    destruct (claims s !! Claim.id claim); by eauto.
  - destruct (claims s !! claim_id) as [c|] eqn:H.
    + rewrite (delete_claim_known _ _ _ H). by left.
    + rewrite delete_claim_unknown by done. by eauto.
Qed.

(** ** Referential integrity is kept *)

Lemma updated_policy_policyholder_id type start_date end_date coverage_amount
    premium policy :
  Policy.policyholder_id
    (updated_policy type start_date end_date coverage_amount premium policy)
  = Policy.policyholder_id policy.
Proof.
  unfold updated_policy.
  by destruct (truthy type), start_date, end_date, coverage_amount, premium.
Qed.

Lemma updated_claim_policy_id description amount status claim :
  Claim.policy_id (updated_claim description amount status claim)
  = Claim.policy_id claim.
Proof.
  unfold updated_claim. by destruct (truthy description), amount, status.
Qed.

Lemma create_policy_ok policy s :
  (create_policy policy s).2 = Ok tt →
  is_Some (policyholders s !! Policy.policyholder_id policy).
Proof.
  rewrite create_policy_eq.
  destruct (policyholders s !! Policy.policyholder_id policy) eqn:H; [by eauto|].
  by rewrite _validate_policy_unknown.
Qed.

Lemma create_claim_ok claim s :
  (create_claim claim s).2 = Ok tt →
  is_Some (policies s !! Claim.policy_id claim).
Proof.
  rewrite create_claim_eq.
  destruct (policies s !! Claim.policy_id claim) eqn:H; [by eauto|].
  by rewrite _validate_claim_unknown.
Qed.

Lemma ref_integrity_applied o s :
  ref_integrity s →
  (is_update o = false → outcome o s = Ok tt) →
  ref_integrity (applied o s).
Proof.
  intros [Hpol Hcl] Hok. destruct o; simpl in *; split; simpl.
  - (* create_policyholder *)
    intros k p Hk. apply lookup_insert_is_Some'. right. eauto.
  - done.
  - (* update_policyholder *)
    intros k p Hk. apply lookup_alter_is_Some. eauto.
  - done.
  - (* delete_policyholder *)
    intros k p Hk. rewrite lookup_without in Hk.
    destruct (policies s !! k) as [p'|] eqn:Hk'; [|done].
    destruct (is_policy_of policyholder_id p') eqn:Hof; [done|].
    injection Hk as ->. rewrite lookup_delete_ne; [by eauto|].
    intros ->. unfold is_policy_of in Hof. by rewrite String.eqb_refl in Hof.
  - intros k c Hk. rewrite lookup_without in Hk.
    destruct (claims s !! k) as [c'|] eqn:Hk'; [|done].
    destruct (is_claim_of s policyholder_id c') eqn:Hof; [done|].
    injection Hk as ->. unfold is_claim_of in Hof.
    destruct (Hcl _ _ Hk') as [p Hp]. rewrite Hp in Hof.
    rewrite lookup_without, Hp, Hof. eauto.
  - (* create_policy *)
    intros k p Hk. apply lookup_insert_Some in Hk as [[_ <-]|[_ Hk]];
      [|by eauto].
    by apply create_policy_ok, Hok.
  - intros k c Hk. apply lookup_insert_is_Some'. right. eauto.
  - (* update_policy *)
    intros k p Hk. apply lookup_alter_Some in Hk as [[_ (p' & Hk & ->)]|[_ Hk]];
      [|by eauto].
    rewrite updated_policy_policyholder_id. eauto.
  - intros k c Hk. apply lookup_alter_is_Some. eauto.
  - (* delete_policy *)
    intros k p Hk. apply lookup_delete_Some in Hk as [_ Hk]. eauto.
  - intros k c Hk. rewrite lookup_without in Hk.
    destruct (claims s !! k) as [c'|] eqn:Hk'; [|done].
    destruct (is_claim_on policy_id c') eqn:Hon; [done|].
    injection Hk as ->. rewrite lookup_delete_ne; [by eauto|].
    intros ->. unfold is_claim_on in Hon. by rewrite String.eqb_refl in Hon.
  - (* create_claim *)
    done.
  - intros k c Hk. apply lookup_insert_Some in Hk as [[_ <-]|[_ Hk]];
      [|by eauto].
    by apply create_claim_ok, Hok.
  - (* update_claim *)
    done.
  - intros k c Hk. apply lookup_alter_Some in Hk as [[_ (c' & Hk & ->)]|[_ Hk]];
      [|by eauto].
    rewrite updated_claim_policy_id. eauto.
  - (* delete_claim *)
    done.
  - intros k c Hk. apply lookup_delete_Some in Hk as [_ Hk]. eauto.
Qed.

Lemma ref_integrity_after o s : ref_integrity s → ref_integrity (after o s).
Proof.
  intros H. destruct (is_update o) eqn:Hup.
  - rewrite after_update by done. apply ref_integrity_applied; [done|].
    by rewrite Hup.
  - destruct (after_atomic o s Hup) as [[Hok ->]|(e & _ & ->)]; [|done].
    by apply ref_integrity_applied.
Qed.

Lemma ref_integrity_exec l s : ref_integrity s → ref_integrity (exec l s).
Proof.
  revert s. induction l as [|o l IH]; intros s H; [done|].
  simpl. by apply IH, ref_integrity_after.
Qed.

(** C9.  Every store produced from the empty one by a sequence of engine
    calls, whatever each of them answered, has referential integrity:
    the holder of every stored policy is a key of the policyholders and
    the policy of every stored claim is a key of the policies. *)
Theorem ref_integrity_reachable (l : list op) :
  ref_integrity (exec l empty_CMS).
Proof. apply ref_integrity_exec. by split. Qed.

(** ** Atomicity *)

(** C1, as the code has it.  A creation or a deletion is atomic: it
    either returns with its change made in full (the insertion, or the
    whole cascade), or raises with the three mappings exactly as they
    were.  An update whose id is not stored raises with the mappings as
    they were.  [update_policyholder] on a stored holder validates and
    assigns field by field, in the order name, contact_number, email,
    date_of_birth: when a validator raises, the assignments made before it
    stay in the stored record and nothing else has changed. *)
Theorem engine_atomicity (o : op) (s : CMS) :
  (is_update o = false →
   (outcome o s = Ok tt ∧ after o s = applied o s)
   ∨ (∃ e, outcome o s = Raise e ∧ after o s = s))
  ∧ (is_update o = true → target_known o s = false →
     ∃ e, outcome o s = Raise e ∧ after o s = s)
  ∧ (∀ now now' k name contact_number email date_of_birth holder,
       o = UpdatePolicyholder now now' k name contact_number email
             date_of_birth →
       policyholders s !! k = Some holder →
       let r := updated_policyholder now now' name contact_number email
                  date_of_birth holder in
       outcome o s = r.2
       ∧ after o s = set_policyholders (<[k := r.1]> (policyholders s)) s).
Proof.
  split; [apply after_atomic|]. split.
  - unfold outcome, after.
    destruct o; try done; intros _; simpl;
      rewrite bool_decide_is_Some; intros H.
    + destruct (policyholders s !! policyholder_id) eqn:Hk; [done|].
      rewrite update_policyholder_unknown by done. eauto.
    + destruct (policies s !! policy_id) eqn:Hk; [done|].
      rewrite update_policy_unknown by done. eauto.
    + destruct (claims s !! claim_id) eqn:Hk; [done|].
      rewrite update_claim_unknown by done. eauto.
  - intros now now' k name contact_number email date_of_birth holder ->
      Hk r. subst r. unfold outcome, after. simpl.
    by rewrite (update_policyholder_known _ _ _ _ _ _ _ _ _ Hk).
Qed.

Lemma engine_atomicity_witness :
  (∃ e, outcome (CreateClaim claim_over_coverage) store_policy = Raise e
        ∧ after (CreateClaim claim_over_coverage) store_policy = store_policy)
  ∧ (∃ e, outcome (UpdateClaim "CL404" (Some "x") None None) store_claim
          = Raise e
          ∧ after (UpdateClaim "CL404" (Some "x") None None) store_claim
            = store_claim)
  ∧ outcome (UpdatePolicyholder today today "PH001" (Some "Jane Doe") None
               (Some "invalid_email") None) store_claim
    = Raise (ValidationError InvalidEmail).
Proof.
  split; [|split].
  - destruct (engine_atomicity (CreateClaim claim_over_coverage) store_policy)
      as (Hatomic & _).
    destruct (Hatomic eq_refl) as [[Hok _]|Hraise]; [|exact Hraise].
    vm_compute in Hok. discriminate Hok.
  - destruct (engine_atomicity (UpdateClaim "CL404" (Some "x") None None)
                store_claim) as (_ & Hunknown & _).
    apply Hunknown; by_computation.
  - destruct (engine_atomicity
                (UpdatePolicyholder today today "PH001" (Some "Jane Doe") None
                   (Some "invalid_email") None) store_claim)
      as (_ & _ & Hfields).
    destruct (Hfields today today "PH001" (Some "Jane Doe") None
                (Some "invalid_email") None PH001 eq_refl) as [Hout _];
      [by_computation|].
    rewrite Hout. by_computation.
Defined.

(** Against C1 as worded: three updates that raise and leave the stored
    record changed.  [update_policyholder] has written the name when the
    email is refused; [update_claim] and [update_policy] have written the
    amount and the coverage that their validation then refuses. *)
Lemma update_raises_with_record_changed :
  (let o := UpdatePolicyholder today today "PH001" (Some "Jane Doe") None
              (Some "invalid_email") None in
   get_policyholder "PH001" store_claim = Some PH001
   ∧ outcome o store_claim = Raise (ValidationError InvalidEmail)
   ∧ get_policyholder "PH001" (after o store_claim)
     = Some (Policyholder.set_name "Jane Doe" PH001)
   ∧ Policyholder.set_name "Jane Doe" PH001 ≠ PH001)
  ∧ (let o := UpdateClaim "CL001" None (Some 60000%Q) None in
     get_claim "CL001" store_claim = Some CL001
     ∧ outcome o store_claim
       = Raise (ValidationError (AmountOutOfRange 50000))
     ∧ get_claim "CL001" (after o store_claim)
       = Some (Claim.set_amount 60000 CL001)
     ∧ Claim.set_amount 60000 CL001 ≠ CL001)
  ∧ (let o := UpdatePolicy "POL001" None None None (Some (-1)%Q) None in
     get_policy "POL001" store_claim = Some POL001
     ∧ outcome o store_claim = Raise (ValidationError CoverageNotPositive)
     ∧ get_policy "POL001" (after o store_claim)
       = Some (Policy.set_coverage_amount (-1) POL001)
     ∧ Policy.set_coverage_amount (-1) POL001 ≠ POL001).
Proof. repeat split; by_computation. Qed.

(** ** Closed claims *)

(** C2 at its failing inputs.  In the later engine a closed claim is
    rewritten in every field, its status included, and the call returns.
    In the earlier engine the guard sits in the status branch only: the
    description and the amount of a closed claim are rewritten and the
    call returns, and when a status is supplied too the call raises after
    the description has been written. *)
Theorem update_claim_on_closed_claim :
  (get_claim "CL001" store_closed = Some (Claim.set_status CLOSED CL001)
   ∧ update_claim "CL001" (Some "Rewritten") (Some 1%Q) (Some SUBMITTED)
       store_closed
     = (set_claims
          (<["CL001" := Claim.set_status SUBMITTED
                          (Claim.set_amount 1
                             (Claim.set_description "Rewritten" CL001))]>
             (claims store_closed)) store_closed, Ok tt))
  ∧ (CRUD.claims store_closed_crud !! "CL001"
     = Some (Claim.set_status CLOSED CL001)
     ∧ CRUD.update_claim "CL001" (Some "Rewritten") (Some 1%Q) None
         store_closed_crud
       = (CRUD.set_claims
            (<["CL001" := Claim.set_amount 1
                            (Claim.set_description "Rewritten"
                               (Claim.set_status CLOSED CL001))]>
               (CRUD.claims store_closed_crud)) store_closed_crud, Ok tt)
     ∧ CRUD.update_claim "CL001" (Some "Rewritten") None (Some APPROVED)
         store_closed_crud
       = (CRUD.set_claims
            (<["CL001" := Claim.set_description "Rewritten"
                            (Claim.set_status CLOSED CL001)]>
               (CRUD.claims store_closed_crud)) store_closed_crud,
          Raise (ValidationError ClosedClaim))).
Proof. repeat split; by_computation. Qed.

(** ** Empty strings in updates *)

Lemma truthy_Some o v : truthy o = Some v → o = Some v ∧ v ≠ "".
Proof. destruct o as [[|a u]|]; simpl; intros H; by simplify_eq. Qed.

(** Each string field of the holder an update leaves is the one it had,
    or the non-empty argument given for it. *)
Lemma updated_policyholder_fields now now' name contact_number email
    date_of_birth holder :
  let holder' := (updated_policyholder now now' name contact_number email
                    date_of_birth holder).1 in
  (Policyholder.name holder' = Policyholder.name holder
   ∨ truthy name = Some (Policyholder.name holder'))
  ∧ (Policyholder.contact_number holder' = Policyholder.contact_number holder
     ∨ truthy contact_number = Some (Policyholder.contact_number holder'))
  ∧ (Policyholder.email holder' = Policyholder.email holder
     ∨ truthy email = Some (Policyholder.email holder')).
Proof.
  unfold updated_policyholder, checked.
  destruct (truthy name), (truthy contact_number) as [c|],
    (truthy email) as [e|], date_of_birth as [d|]; simpl;
    try destruct (phone_verdict c) as [[]|?]; simpl;
    try destruct (email_verdict e) as [[]|?]; simpl;
    try destruct (date_of_birth_verdict now now' d) as [[]|?]; simpl;
    auto.
Qed.

Lemma updated_claim_description description amount status claim :
  Claim.description (updated_claim description amount status claim)
  = default (Claim.description claim) (truthy description).
Proof.
  unfold updated_claim. by destruct (truthy description), amount, status.
Qed.

Lemma updated_policy_type type start_date end_date coverage_amount premium
    policy :
  Policy.type
    (updated_policy type start_date end_date coverage_amount premium policy)
  = default (Policy.type policy) (truthy type).
Proof.
  unfold updated_policy.
  by destruct (truthy type), start_date, end_date, coverage_amount, premium.
Qed.

(** C10, as the code has it.  An empty string given for a string field of
    an update is the field not given: the call is the same call, to the
    store it leaves and the answer it gives, as with [None] in that place;
    the validator of the field, which refuses the empty string, is not
    run; the stored field keeps its value.  Whatever the arguments of an
    update, a string field that is empty afterwards was empty before.
    [update_policyholder] with nothing but empty strings returns on a
    stored id.  [update_claim] and [update_policy] with nothing but an
    empty string leave the store as it was and answer what the validation
    of the stored record answers: they return exactly when that record
    still passes it. *)
Theorem empty_string_is_not_provided :
  (∀ now now' k name contact_number email date_of_birth s holder,
     policyholders s !! k = Some holder →
     let call n c e := update_policyholder now now' k n c e date_of_birth s in
     call (Some "") contact_number email = call None contact_number email
     ∧ call name (Some "") email = call name None email
     ∧ call name contact_number (Some "") = call name contact_number None
     ∧ update_policyholder now now' k (Some "") (Some "") (Some "") None s
       = (s, Ok tt)
     ∧ _validate_phone_number "" s = (s, Raise (ValidationError InvalidPhone))
     ∧ _validate_email "" s = (s, Raise (ValidationError InvalidEmail))
     ∧ (∃ h, get_policyholder k (call (Some "") contact_number email).1 = Some h
             ∧ Policyholder.name h = Policyholder.name holder)
     ∧ (∃ h, get_policyholder k (call name (Some "") email).1 = Some h
             ∧ Policyholder.contact_number h
               = Policyholder.contact_number holder)
     ∧ (∃ h, get_policyholder k (call name contact_number (Some "")).1 = Some h
             ∧ Policyholder.email h = Policyholder.email holder)
     ∧ (∃ h, get_policyholder k (call name contact_number email).1 = Some h
             ∧ (Policyholder.name h = "" → Policyholder.name holder = "")
             ∧ (Policyholder.contact_number h = ""
                → Policyholder.contact_number holder = "")
             ∧ (Policyholder.email h = "" → Policyholder.email holder = "")))
  ∧ (∀ k description amount status s claim,
       claims s !! k = Some claim →
       update_claim k (Some "") amount status s
       = update_claim k None amount status s
       ∧ update_claim k (Some "") None None s = (s, (_validate_claim claim s).2)
       ∧ (∃ c, get_claim k (update_claim k (Some "") amount status s).1 = Some c
               ∧ Claim.description c = Claim.description claim)
       ∧ (∃ c, get_claim k (update_claim k description amount status s).1
               = Some c
               ∧ (Claim.description c = "" → Claim.description claim = "")))
  ∧ (∀ k type start_date end_date coverage_amount premium s policy,
       policies s !! k = Some policy →
       update_policy k (Some "") start_date end_date coverage_amount premium s
       = update_policy k None start_date end_date coverage_amount premium s
       ∧ update_policy k (Some "") None None None None s
         = (s, (_validate_policy policy s).2)
       ∧ (∃ p, get_policy k
                 (update_policy k (Some "") start_date end_date
                    coverage_amount premium s).1 = Some p
               ∧ Policy.type p = Policy.type policy)
       ∧ (∃ p, get_policy k
                 (update_policy k type start_date end_date coverage_amount
                    premium s).1 = Some p
               ∧ (Policy.type p = "" → Policy.type policy = ""))).
Proof.
  split; [|split].
  - intros now now' k name contact_number email date_of_birth s holder Hk call.
    subst call. unfold get_policyholder. simpl.
    split; [done|]. split; [done|]. split; [done|].
    split.
    { rewrite (update_policyholder_known _ _ _ _ _ _ _ _ _ Hk). simpl.
      by rewrite set_policyholders_id. }
    split; [by rewrite _validate_phone_number_eq|].
    split; [by rewrite _validate_email_eq|].
    assert (∀ n c e,
      ∃ h, policyholders
             (update_policyholder now now' k n c e date_of_birth s).1 !! k
           = Some h
           ∧ (Policyholder.name h = Policyholder.name holder
              ∨ truthy n = Some (Policyholder.name h))
           ∧ (Policyholder.contact_number h
              = Policyholder.contact_number holder
              ∨ truthy c = Some (Policyholder.contact_number h))
           ∧ (Policyholder.email h = Policyholder.email holder
              ∨ truthy e = Some (Policyholder.email h))) as Hfields.
    { intros n c e.
      rewrite (update_policyholder_known _ _ _ _ _ _ _ _ _ Hk). simpl.
      rewrite lookup_insert_eq. eexists. split; [done|].
      apply updated_policyholder_fields. }
    split; [|split; [|split]].
    + destruct (Hfields (Some "") contact_number email)
        as (h & Hh & [Hn|Hn] & _); [by eauto|done].
    + destruct (Hfields name (Some "") email)
        as (h & Hh & _ & [Hc|Hc] & _); [by eauto|done].
    + destruct (Hfields name contact_number (Some ""))
        as (h & Hh & _ & _ & [He|He]); [by eauto|done].
    + destruct (Hfields name contact_number email)
        as (h & Hh & Hn & Hc & He).
      exists h. split; [done|].
      split; [|split]; intros Hempty.
      * destruct Hn as [<-|Hn]; [done|].
        apply truthy_Some in Hn as [_ Hn]. done.
      * destruct Hc as [<-|Hc]; [done|].
        apply truthy_Some in Hc as [_ Hc]. done.
      * destruct He as [<-|He]; [done|].
        apply truthy_Some in He as [_ He]. done.
  - intros k description amount status s claim Hk. unfold get_claim.
    split; [done|]. split.
    { rewrite (update_claim_known _ _ _ _ _ _ Hk). simpl.
      unfold updated_claim. simpl. by rewrite set_claims_id. }
    split.
    + rewrite (update_claim_known _ _ _ _ _ _ Hk). simpl.
      rewrite lookup_insert_eq. eexists. split; [done|].
      by rewrite updated_claim_description.
    + rewrite (update_claim_known _ _ _ _ _ _ Hk). simpl.
      rewrite lookup_insert_eq. eexists. split; [done|].
      rewrite updated_claim_description.
      destruct (truthy description) as [v|] eqn:Hd; simpl; [|done].
      apply truthy_Some in Hd as [_ Hd]. done.
  - intros k type start_date end_date coverage_amount premium s policy Hk.
    unfold get_policy.
    split; [done|]. split.
    { rewrite (update_policy_known _ _ _ _ _ _ _ _ Hk). simpl.
      unfold updated_policy. simpl. by rewrite set_policies_id. }
    split.
    + rewrite (update_policy_known _ _ _ _ _ _ _ _ Hk). simpl.
      rewrite lookup_insert_eq. eexists. split; [done|].
      by rewrite updated_policy_type.
    + rewrite (update_policy_known _ _ _ _ _ _ _ _ Hk). simpl.
      rewrite lookup_insert_eq. eexists. split; [done|].
      rewrite updated_policy_type.
      destruct (truthy type) as [v|] eqn:Hd; simpl; [|done].
      apply truthy_Some in Hd as [_ Hd]. done.
Qed.

Lemma empty_string_is_not_provided_witness :
  update_policyholder today today "PH001" (Some "") (Some "") (Some "") None
    store_claim = (store_claim, Ok tt)
  ∧ update_claim "CL001" (Some "") None None store_claim = (store_claim, Ok tt)
  ∧ update_policy "POL001" (Some "") None None None None store_claim
    = (store_claim, Ok tt).
Proof.
  destruct empty_string_is_not_provided as (Hholder & Hclaim & Hpolicy).
  split; [|split].
  - destruct (Hholder today today "PH001" None None None None store_claim
                PH001) as (_ & _ & _ & H & _); [by_computation|exact H].
  - destruct (Hclaim "CL001" None None None store_claim CL001)
      as (_ & H & _); [by_computation|].
    rewrite H. by_computation.
  - destruct (Hpolicy "POL001" None None None None None store_claim POL001)
      as (_ & H & _); [by_computation|].
    rewrite H. by_computation.
Defined.

(** Against C10 as worded: a call that passes nothing but an empty string
    need not succeed.  Lowering the coverage of POL001 to 1000 returns and
    leaves CL001, of amount 5000, on it; [update_claim] with an empty
    description then raises on the amount.  Moving the date of birth of
    PH001 to 2005-08-05 returns and leaves POL001, which starts on
    2023-01-01; [update_policy] with an empty type then raises on the
    age.  Both calls leave the store as it was. *)
Lemma update_with_empty_string_raises :
  outcome lower_coverage store_claim = Ok tt
  ∧ update_claim "CL001" (Some "") None None store_low_coverage
    = (store_low_coverage, Raise (ValidationError (AmountOutOfRange 1000)))
  ∧ outcome move_date_of_birth store_claim = Ok tt
  ∧ update_policy "POL001" (Some "") None None None None store_young_holder
    = (store_young_holder, Raise (BusinessRuleViolation UnderageAtStart)).
Proof. repeat split; by_computation. Qed.

(** * Further properties of the later engine *)

(** ** Creating a policyholder *)

Lemma _validate_policyholder_eq now now' holder s :
  _validate_policyholder now now' holder s
  = (s, match email_verdict (Policyholder.email holder) with
        | Raise e => Raise e
        | Ok _ =>
            match phone_verdict (Policyholder.contact_number holder) with
            | Raise e => Raise e
            | Ok _ =>
                date_of_birth_verdict now now'
                  (Policyholder.date_of_birth holder)
            end
        end).
Proof.
  unfold _validate_policyholder, bind.
  rewrite _validate_email_eq. destruct (email_verdict _) as [[]|]; [|done].
  rewrite _validate_phone_number_eq. destruct (phone_verdict _) as [[]|]; [|done].
  by rewrite _validate_date_of_birth_eq.
Qed.

Lemma email_verdict_Ok email :
  email_verdict email = Ok tt ↔ re_match email_re email = true.
Proof. unfold email_verdict. by destruct (re_match email_re email). Qed.

Lemma phone_verdict_Ok phone :
  phone_verdict phone = Ok tt ↔ re_match phone_re phone = true.
Proof. unfold phone_verdict. by destruct (re_match phone_re phone). Qed.

(** X1.  A holder whose email and contact number have the accepted
    shapes, who was born no later than the first reading of the clock and
    is at least 18 x 365 days old at the second, and whose id is not
    stored, is created: the call returns, a read of the id gives the
    holder back as passed, and every other read answers as before. *)
Theorem create_policyholder_then_get (now now' : datetime)
    (holder : Policyholder.t) (s : CMS) :
  email_prefix_shape (Policyholder.email holder) →
  phone_shape (Policyholder.contact_number holder) →
  (Policyholder.date_of_birth holder ≤ now)%Z →
  (18 * 365 ≤ days now' (Policyholder.date_of_birth holder))%Z →
  policyholders s !! Policyholder.id holder = None →
  let s' := (create_policyholder now now' holder s).1 in
  (create_policyholder now now' holder s).2 = Ok tt
  ∧ get_policyholder (Policyholder.id holder) s' = Some holder
  ∧ (∀ k, k ≠ Policyholder.id holder →
          get_policyholder k s' = get_policyholder k s)
  ∧ policies s' = policies s
  ∧ claims s' = claims s.
Proof.
  intros He Hp Hborn Hage Hfresh s'. subst s'.
  rewrite create_policyholder_eq, _validate_policyholder_eq, Hfresh.
  apply email_re_spec, email_verdict_Ok in He. rewrite He.
  apply phone_re_spec, phone_verdict_Ok in Hp. rewrite Hp.
  unfold date_of_birth_verdict.
  replace (now <? Policyholder.date_of_birth holder)%Z
    with false by (symmetry; apply Z.ltb_ge; lia).
  replace (days now' (Policyholder.date_of_birth holder) <? 18 * 365)%Z
    with false by (symmetry; apply Z.ltb_ge; lia).
  unfold get_policyholder. simpl. repeat split.
  - apply lookup_insert_eq.
  - intros k Hk. by apply lookup_insert_ne.
Qed.

Lemma create_policyholder_then_get_witness :
  (create_policyholder today today PH001 empty_CMS).2 = Ok tt
  ∧ get_policyholder "PH001" (create_policyholder today today PH001 empty_CMS).1
    = Some PH001.
Proof.
  destruct (create_policyholder_then_get today today PH001 empty_CMS)
    as (Hok & Hget & _).
  - exists "john", "example", "com", "". repeat split; done.
  - exists "+", "1", "234567890", "". repeat split; auto; simpl; lia.
  - by_computation.
  - by_computation.
  - by_computation.
  - exact (conj Hok Hget).
Defined.

(** X2.  For a holder whose email and contact number have the accepted
    shapes, a date of birth after the first reading of the clock raises
    [ValidationError], and otherwise an age under 18 x 365 days at the
    second reading raises [BusinessRuleViolation]; both before the id is
    looked at, so also for an id that is stored, and with the store as it
    was. *)
Theorem create_policyholder_date_of_birth_rule (now now' : datetime)
    (holder : Policyholder.t) (s : CMS) :
  email_prefix_shape (Policyholder.email holder) →
  phone_shape (Policyholder.contact_number holder) →
  ((now < Policyholder.date_of_birth holder)%Z →
   create_policyholder now now' holder s
   = (s, Raise (ValidationError DobInFuture)))
  ∧ ((Policyholder.date_of_birth holder ≤ now)%Z →
     (days now' (Policyholder.date_of_birth holder) < 18 * 365)%Z →
     create_policyholder now now' holder s
     = (s, Raise (BusinessRuleViolation Underage))).
Proof.
  intros He Hp.
  rewrite create_policyholder_eq, _validate_policyholder_eq.
  apply email_re_spec, email_verdict_Ok in He. rewrite He.
  apply phone_re_spec, phone_verdict_Ok in Hp. rewrite Hp.
  unfold date_of_birth_verdict. split.
  - intros Hfuture.
    by replace (now <? Policyholder.date_of_birth holder)%Z
      with true by (symmetry; apply Z.ltb_lt; lia).
  - intros Hborn Hage.
    replace (now <? Policyholder.date_of_birth holder)%Z
      with false by (symmetry; apply Z.ltb_ge; lia).
    by replace (days now' (Policyholder.date_of_birth holder) <? 18 * 365)%Z
      with true by (symmetry; apply Z.ltb_lt; lia).
Qed.

Lemma create_policyholder_date_of_birth_rule_witness :
  create_policyholder today today
    (Policyholder.set_date_of_birth (today + 1)%Z PH001) store_claim
  = (store_claim, Raise (ValidationError DobInFuture))
  ∧ create_policyholder today today
      (Policyholder.set_date_of_birth (today - 17 * 365 * us_per_day)%Z PH001)
      store_claim
    = (store_claim, Raise (BusinessRuleViolation Underage)).
Proof.
  assert (email_prefix_shape "john@example.com") as He
    by (exists "john", "example", "com", ""; repeat split; done).
  assert (phone_shape "+1234567890") as Hp
    by (exists "+", "1", "234567890", ""; repeat split; auto; simpl; lia).
  split.
  - destruct (create_policyholder_date_of_birth_rule today today
                (Policyholder.set_date_of_birth (today + 1)%Z PH001)
                store_claim He Hp) as [Hfuture _].
    apply Hfuture. by_computation.
  - destruct (create_policyholder_date_of_birth_rule today today
                (Policyholder.set_date_of_birth
                   (today - 17 * 365 * us_per_day)%Z PH001)
                store_claim He Hp) as [_ Hyoung].
    apply Hyoung; by_computation.
Defined.

(** ** Creations and the ids they meet *)

(** X3.  A creation whose id is already stored always raises and leaves
    the store as it was, whatever the rest of its input: a stored record
    is never overwritten by a create. *)
Theorem create_on_stored_id_raises :
  (∀ now now' (holder : Policyholder.t) (s : CMS),
     is_Some (policyholders s !! Policyholder.id holder) →
     ∃ e, create_policyholder now now' holder s = (s, Raise e))
  ∧ (∀ (policy : Policy.t) (s : CMS),
       is_Some (policies s !! Policy.id policy) →
       ∃ e, create_policy policy s = (s, Raise e))
  ∧ (∀ (claim : Claim.t) (s : CMS),
       is_Some (claims s !! Claim.id claim) →
       ∃ e, create_claim claim s = (s, Raise e)).
Proof.
  split; [|split].
  - intros now now' holder s [h Hh]. rewrite create_policyholder_eq, Hh.
    destruct (_validate_policyholder now now' holder s) as [? [[]|e]]; eauto.
  - intros policy s [p Hp]. rewrite create_policy_eq, Hp.
    destruct (_validate_policy policy s) as [? [[]|e]]; eauto.
  - intros claim s [c Hc]. rewrite create_claim_eq, Hc.
    destruct (_validate_claim claim s) as [? [[]|e]]; eauto.
Qed.

Lemma create_on_stored_id_raises_witness :
  (∃ e, create_policyholder today today PH001 store_claim
        = (store_claim, Raise e))
  ∧ (∃ e, create_policy POL001 store_claim = (store_claim, Raise e))
  ∧ (∃ e, create_claim CL001 store_claim = (store_claim, Raise e)).
Proof.
  destruct create_on_stored_id_raises as (Hholder & Hpolicy & Hclaim).
  split; [|split].
  - apply Hholder. exists PH001. by_computation.
  - apply Hpolicy. exists POL001. by_computation.
  - apply Hclaim. exists CL001. by_computation.
Defined.

(** X4.  A policy whose holder is not stored, and a claim whose policy is
    not stored, are refused with the does-not-exist error before any
    other check, whatever their other fields and whether or not their own
    id is stored; the store is left as it was. *)
Theorem create_with_dangling_reference :
  (∀ (policy : Policy.t) (s : CMS),
     policyholders s !! Policy.policyholder_id policy = None →
     create_policy policy s
     = (s, Raise (ValidationError
                    (PolicyholderMissing (Policy.policyholder_id policy)))))
  ∧ (∀ (claim : Claim.t) (s : CMS),
       policies s !! Claim.policy_id claim = None →
       create_claim claim s
       = (s, Raise (ValidationError (PolicyMissing (Claim.policy_id claim))))).
Proof.
  split.
  - intros policy s H. by rewrite create_policy_eq, _validate_policy_unknown.
  - intros claim s H. by rewrite create_claim_eq, _validate_claim_unknown.
Qed.

Lemma create_with_dangling_reference_witness :
  create_policy POL001 empty_CMS
  = (empty_CMS, Raise (ValidationError (PolicyholderMissing "PH001")))
  ∧ create_claim CL001 empty_CMS
    = (empty_CMS, Raise (ValidationError (PolicyMissing "POL001"))).
Proof.
  destruct create_with_dangling_reference as (Hpolicy & Hclaim).
  split.
  - apply (Hpolicy POL001 empty_CMS). by_computation.
  - apply (Hclaim CL001 empty_CMS). by_computation.
Defined.

(** ** Invariants of the reachable stores *)

(** The store after a call is the store before it, or the store with the
    change of the call made; the second only after a return when the call
    is not an update. *)
Lemma after_either o s :
  after o s = s
  ∨ (after o s = applied o s ∧ (is_update o = false → outcome o s = Ok tt)).
Proof.
  destruct (is_update o) eqn:Hup.
  - right. split; [by apply after_update|done].
  - destruct (after_atomic o s Hup) as [[Hok Hs]|(e & _ & Hs)]; auto.
Qed.

Lemma reachable_ind (P : CMS → Prop) :
  P empty_CMS →
  (∀ o s, P s → (is_update o = false → outcome o s = Ok tt) →
          P (applied o s)) →
  ∀ l, P (exec l empty_CMS).
Proof.
  intros Hempty Hstep l.
  assert (∀ s, P s → P (exec l s)) as H; [|by apply H].
  induction l as [|o l IH]; intros s Hs; [done|].
  simpl. apply IH.
  destruct (after_either o s) as [->|[-> Hok]]; [done|by apply Hstep].
Qed.

Lemma updated_policyholder_id now now' name contact_number email
    date_of_birth holder :
  Policyholder.id (updated_policyholder now now' name contact_number email
                     date_of_birth holder).1
  = Policyholder.id holder.
Proof.
  unfold updated_policyholder, checked.
  destruct (truthy name), (truthy contact_number) as [c|],
    (truthy email) as [e|], date_of_birth as [d|]; simpl;
    try destruct (phone_verdict c) as [[]|?]; simpl;
    try destruct (email_verdict e) as [[]|?]; simpl;
    try destruct (date_of_birth_verdict now now' d) as [[]|?]; simpl;
    done.
Qed.

Lemma updated_policy_id type start_date end_date coverage_amount premium
    policy :
  Policy.id
    (updated_policy type start_date end_date coverage_amount premium policy)
  = Policy.id policy.
Proof.
  unfold updated_policy.
  by destruct (truthy type), start_date, end_date, coverage_amount, premium.
Qed.

Lemma updated_claim_id description amount status claim :
  Claim.id (updated_claim description amount status claim) = Claim.id claim.
Proof.
  unfold updated_claim. by destruct (truthy description), amount, status.
Qed.

(** X5.  In every store produced from the empty one by a sequence of
    engine calls, each record is stored under its own id: the key of a
    policyholder, a policy or a claim in its mapping is the [id] field of
    the record. *)
Theorem well_keyed_reachable (l : list op) : well_keyed (exec l empty_CMS).
Proof.
  apply reachable_ind; [by repeat split|].
  intros o s (Hh & Hp & Hc) _.
  destruct o; simpl; (split; [|split]); simpl; try done.
  - intros k h [[<- <-]|[_ Hk]]%lookup_insert_Some; eauto.
  - intros k h [[<- (h' & Hk & ->)]|[_ Hk]]%lookup_alter_Some; [|by eauto].
    rewrite updated_policyholder_id. eauto.
  - intros k h [_ Hk]%lookup_delete_Some. eauto.
  - intros k p Hk. rewrite lookup_without in Hk.
    destruct (policies s !! k) as [p'|] eqn:Hk'; [|done].
    destruct (is_policy_of policyholder_id p'); [done|].
    injection Hk as <-. eauto.
  - intros k c Hk. rewrite lookup_without in Hk.
    destruct (claims s !! k) as [c'|] eqn:Hk'; [|done].
    destruct (is_claim_of s policyholder_id c'); [done|].
    injection Hk as <-. eauto.
  - intros k p [[<- <-]|[_ Hk]]%lookup_insert_Some; eauto.
  - intros k p [[<- (p' & Hk & ->)]|[_ Hk]]%lookup_alter_Some; [|by eauto].
    rewrite updated_policy_id. eauto.
  - intros k p [_ Hk]%lookup_delete_Some. eauto.
  - intros k c Hk. rewrite lookup_without in Hk.
    destruct (claims s !! k) as [c'|] eqn:Hk'; [|done].
    destruct (is_claim_on policy_id c'); [done|].
    injection Hk as <-. eauto.
  - intros k c [[<- <-]|[_ Hk]]%lookup_insert_Some; eauto.
  - intros k c [[<- (c' & Hk & ->)]|[_ Hk]]%lookup_alter_Some; [|by eauto].
    rewrite updated_claim_id. eauto.
  - intros k c [_ Hk]%lookup_delete_Some. eauto.
Qed.

Lemma create_policyholder_ok now now' holder s :
  (create_policyholder now now' holder s).2 = Ok tt →
  re_match email_re (Policyholder.email holder) = true
  ∧ re_match phone_re (Policyholder.contact_number holder) = true.
Proof.
  rewrite create_policyholder_eq, _validate_policyholder_eq.
  rewrite <- email_verdict_Ok, <- phone_verdict_Ok.
  destruct (email_verdict _) as [[]|]; [|done].
  destruct (phone_verdict _) as [[]|]; done.
Qed.

Lemma updated_policyholder_well_formed now now' name contact_number email
    date_of_birth holder :
  re_match email_re (Policyholder.email holder) = true →
  re_match phone_re (Policyholder.contact_number holder) = true →
  let holder' := (updated_policyholder now now' name contact_number email
                    date_of_birth holder).1 in
  re_match email_re (Policyholder.email holder') = true
  ∧ re_match phone_re (Policyholder.contact_number holder') = true.
Proof.
  intros He Hp. unfold updated_policyholder, checked.
  destruct (truthy name), (truthy contact_number) as [c|],
    (truthy email) as [e|], date_of_birth as [d|]; simpl;
    try destruct (phone_verdict c) as [[]|?] eqn:Hc; simpl;
    try destruct (email_verdict e) as [[]|?] eqn:Hm; simpl;
    try destruct (date_of_birth_verdict now now' d) as [[]|?]; simpl;
    try apply email_verdict_Ok in Hm; try apply phone_verdict_Ok in Hc;
    done.
Qed.

(** X6.  In every store produced from the empty one by a sequence of
    engine calls, whatever each call answered, the email of every stored
    policyholder is matched by the email pattern and the contact number
    by the phone pattern: neither a creation nor an update ever writes a
    value that its validator has not accepted. *)
Theorem holders_well_formed_reachable (l : list op) :
  holders_well_formed (exec l empty_CMS).
Proof.
  apply reachable_ind; [done|].
  intros o s H Hok. unfold holders_well_formed.
  destruct o; cbn -[re_match]; try exact H.
  - intros k h [[<- <-]|[_ Hk]]%lookup_insert_Some; [|by eauto].
    by apply (create_policyholder_ok now now' _ s), Hok.
  - intros k h [[<- (h' & Hk & ->)]|[_ Hk]]%lookup_alter_Some; [|by eauto].
    destruct (H _ _ Hk) as [He Hp].
    by apply updated_policyholder_well_formed.
  - intros k h [_ Hk]%lookup_delete_Some. eauto.
Qed.

(** ** What an update touches *)

(** X7.  An update, whether it returns or raises, adds and removes no
    record and touches no mapping but its own, and in that mapping no
    entry but the one of its id, whose [id] (and, for a policy and a
    claim, the reference to the holder and to the policy) stays as it
    was. *)
Theorem update_touches_one_record (o : op) (s : CMS) :
  is_update o = true →
  let s' := after o s in
  dom (policyholders s') = dom (policyholders s)
  ∧ dom (policies s') = dom (policies s)
  ∧ dom (claims s') = dom (claims s)
  ∧ match o with
    | UpdatePolicyholder _ _ k _ _ _ _ =>
        policies s' = policies s ∧ claims s' = claims s
        ∧ (∀ j, j ≠ k → policyholders s' !! j = policyholders s !! j)
        ∧ (∀ h h', policyholders s !! k = Some h →
                   policyholders s' !! k = Some h' →
                   Policyholder.id h' = Policyholder.id h)
    | UpdatePolicy k _ _ _ _ _ =>
        policyholders s' = policyholders s ∧ claims s' = claims s
        ∧ (∀ j, j ≠ k → policies s' !! j = policies s !! j)
        ∧ (∀ p p', policies s !! k = Some p → policies s' !! k = Some p' →
                   Policy.id p' = Policy.id p
                   ∧ Policy.policyholder_id p' = Policy.policyholder_id p)
    | UpdateClaim k _ _ _ =>
        policyholders s' = policyholders s ∧ policies s' = policies s
        ∧ (∀ j, j ≠ k → claims s' !! j = claims s !! j)
        ∧ (∀ c c', claims s !! k = Some c → claims s' !! k = Some c' →
                   Claim.id c' = Claim.id c
                   ∧ Claim.policy_id c' = Claim.policy_id c
                   ∧ Claim.date_of_incident c' = Claim.date_of_incident c
                   ∧ Claim.date_submitted c' = Claim.date_submitted c)
    | _ => True
    end.
Proof.
  intros Hup s'. subst s'. rewrite after_update by done.
  destruct o; try done; simpl; rewrite dom_alter_L; repeat split; try done.
  - intros j Hj. by apply lookup_alter_ne.
  - intros h h' Hk. rewrite lookup_alter_eq, Hk. simpl. intros [= <-].
    apply updated_policyholder_id.
  - intros j Hj. by apply lookup_alter_ne.
  - revert H0. rewrite lookup_alter_eq, H. simpl. intros [= <-].
    apply updated_policy_id.
  - revert H0. rewrite lookup_alter_eq, H. simpl. intros [= <-].
    apply updated_policy_policyholder_id.
  - intros j Hj. by apply lookup_alter_ne.
  - revert H0. rewrite lookup_alter_eq, H. simpl. intros [= <-].
    apply updated_claim_id.
  - revert H0. rewrite lookup_alter_eq, H. simpl. intros [= <-].
    apply updated_claim_policy_id.
  - revert H0. rewrite lookup_alter_eq, H. simpl. intros [= <-].
    unfold updated_claim. by destruct (truthy description), amount, status.
  - revert H0. rewrite lookup_alter_eq, H. simpl. intros [= <-].
    unfold updated_claim. by destruct (truthy description), amount, status.
Qed.

Lemma update_touches_one_record_witness :
  let s' := after (UpdateClaim "CL001" None (Some 60000%Q) None) store_claim in
  dom (claims s') = dom (claims store_claim)
  ∧ policies s' = policies store_claim.
Proof.
  destruct (update_touches_one_record
              (UpdateClaim "CL001" None (Some 60000%Q) None) store_claim
              eq_refl) as (_ & _ & Hdom & _ & Hpol & _).
  exact (conj Hdom Hpol).
Defined.

(** ** Deleting a policy *)

(** X8.  Deleting a stored policy returns; afterwards the policy reads
    as absent, every claim on it reads as absent, and the policyholders,
    the other policies and the claims on other policies read as before. *)
Theorem delete_policy_cascade (s : CMS) (policy_id : string)
    (policy : Policy.t) :
  policies s !! policy_id = Some policy →
  let s' := (delete_policy policy_id s).1 in
  (delete_policy policy_id s).2 = Ok tt
  ∧ policyholders s' = policyholders s
  ∧ get_policy policy_id s' = None
  ∧ (∀ k, k ≠ policy_id → get_policy k s' = get_policy k s)
  ∧ (∀ k, get_claim k s'
          = match get_claim k s with
            | Some c => if is_claim_on policy_id c then None else Some c
            | None => None
            end).
Proof.
  intros Hp s'. subst s'. rewrite (delete_policy_known _ _ _ Hp).
  unfold get_policy, get_claim. simpl. repeat split.
  - apply lookup_delete_eq.
  - intros k Hk. by apply lookup_delete_ne.
  - intros k. apply lookup_without.
Qed.

Lemma delete_policy_cascade_witness :
  (delete_policy "POL001" store_two_policies).2 = Ok tt
  ∧ get_claim "CL001" (delete_policy "POL001" store_two_policies).1 = None
  ∧ get_policy "POL002" (delete_policy "POL001" store_two_policies).1
    = Some POL002.
Proof.
  assert (policies store_two_policies !! "POL001" = Some POL001) as Hp
    by by_computation.
  destruct (delete_policy_cascade store_two_policies "POL001" POL001 Hp)
    as (Hok & _ & _ & Hother & Hclaims).
  split; [exact Hok|]. split.
  - rewrite Hclaims. by_computation.
  - rewrite Hother by done. by_computation.
Defined.

(** ** Creating and then deleting *)

(** X9.  A creation that returns is undone by the deletion of the id it
    created: the store is again the store before the creation.  For a
    claim this holds in any store; for a policy and for a policyholder it
    holds in a store with referential integrity, where nothing can refer
    to an id that is not stored yet, so that the cascade finds nothing
    else to remove. *)
Theorem create_then_delete_restores (s : CMS) :
  (∀ claim s',
     create_claim claim s = (s', Ok tt) →
     delete_claim (Claim.id claim) s' = (s, Ok tt))
  ∧ (ref_integrity s →
     (∀ policy s',
        create_policy policy s = (s', Ok tt) →
        delete_policy (Policy.id policy) s' = (s, Ok tt))
     ∧ (∀ now now' holder s',
          create_policyholder now now' holder s = (s', Ok tt) →
          delete_policyholder (Policyholder.id holder) s' = (s, Ok tt))).
Proof.
  split; [|intros [Hpol Hcl]; split].
  - intros claim s'. rewrite create_claim_eq.
    destruct (_validate_claim claim s) as [? [[]|e]]; [|done].
    destruct (claims s !! Claim.id claim) eqn:Hfresh; [done|].
    intros [= <-].
    erewrite delete_claim_known by apply lookup_insert_eq. simpl.
    rewrite set_claims_set_claims, delete_insert_id by done.
    apply f_equal2; [apply set_claims_same|done].
  - intros policy s'. rewrite create_policy_eq.
    destruct (_validate_policy policy s) as [? [[]|e]]; [|done].
    destruct (policies s !! Policy.id policy) eqn:Hfresh; [done|].
    intros [= <-].
    erewrite delete_policy_known by apply lookup_insert_eq. simpl.
    rewrite delete_insert_id by done.
    rewrite without_none; [by destruct s|].
    intros k cl Hk. unfold is_claim_on. apply String.eqb_neq. intros Heq.
    destruct (Hcl _ _ Hk) as [p Hp]. congruence.
  - intros now now' holder s'. rewrite create_policyholder_eq.
    destruct (_validate_policyholder now now' holder s) as [? [[]|e]]; [|done].
    destruct (policyholders s !! Policyholder.id holder) eqn:Hfresh; [done|].
    intros [= <-].
    erewrite delete_policyholder_known by apply lookup_insert_eq. simpl.
    rewrite delete_insert_id by done.
    assert (∀ k p, policies s !! k = Some p →
                   is_policy_of (Policyholder.id holder) p = false) as Hnone.
    { intros k p Hp. unfold is_policy_of. apply String.eqb_neq. intros Heq.
      destruct (Hpol _ _ Hp) as [h Hh]. congruence. }
    rewrite without_none by done.
    rewrite without_none; [by destruct s|].
    intros k cl Hk. unfold is_claim_of. simpl.
    destruct (policies s !! Claim.policy_id cl) eqn:Hp; [|done]. eauto.
Qed.

Lemma create_then_delete_restores_witness :
  delete_claim "CL001" store_claim = (store_policy, Ok tt)
  ∧ delete_policy "POL002" store_two_policies = (store_claim, Ok tt).
Proof.
  destruct (create_then_delete_restores store_policy) as [Hclaim _].
  destruct (create_then_delete_restores store_claim) as [_ Hrest].
  split.
  - apply (Hclaim CL001). by_computation.
  - destruct Hrest as [Hpolicy _].
    + apply ref_integrity_exec, ref_integrity_exec. by split.
    + apply (Hpolicy POL002). by_computation.
Defined.

(** ** Deleting twice *)

(** X10.  A deletion that has returned cannot be repeated: the same
    deletion on the store it left raises the does-not-exist error and
    leaves that store as it is. *)
Theorem delete_not_repeatable (s : CMS) (k : string) :
  ((delete_claim k s).2 = Ok tt →
   delete_claim k (delete_claim k s).1
   = ((delete_claim k s).1, Raise (ValidationError (ClaimMissing k))))
  ∧ ((delete_policy k s).2 = Ok tt →
     delete_policy k (delete_policy k s).1
     = ((delete_policy k s).1, Raise (ValidationError (PolicyMissing k))))
  ∧ ((delete_policyholder k s).2 = Ok tt →
     delete_policyholder k (delete_policyholder k s).1
     = ((delete_policyholder k s).1,
        Raise (ValidationError (PolicyholderMissing k)))).
Proof.
  split; [|split].
  - destruct (claims s !! k) eqn:Hk.
    + rewrite (delete_claim_known _ _ _ Hk). intros _.
      apply delete_claim_unknown. apply lookup_delete_eq.
    + by rewrite delete_claim_unknown.
  - destruct (policies s !! k) eqn:Hk.
    + rewrite (delete_policy_known _ _ _ Hk). intros _.
      apply delete_policy_unknown. apply lookup_delete_eq.
    + by rewrite delete_policy_unknown.
  - destruct (policyholders s !! k) eqn:Hk.
    + rewrite (delete_policyholder_known _ _ _ Hk). intros _.
      apply delete_policyholder_unknown. apply lookup_delete_eq.
    + by rewrite delete_policyholder_unknown.
Qed.

Lemma delete_not_repeatable_witness :
  delete_policyholder "PH001" (delete_policyholder "PH001" store_claim).1
  = ((delete_policyholder "PH001" store_claim).1,
     Raise (ValidationError (PolicyholderMissing "PH001"))).
Proof.
  destruct (delete_not_repeatable store_claim "PH001") as (_ & _ & H).
  apply H. by_computation.
Defined.

(** ** What a return guarantees *)

Lemma policy_verdict_Ok policy holder :
  policy_verdict policy holder = Ok tt ↔ policy_conditions policy holder.
Proof.
  unfold policy_verdict, policy_conditions.
  destruct (Policy.end_date policy <=? Policy.start_date policy)%Z eqn:Hd;
    [apply Z.leb_le in Hd; split; [done|lia]|apply Z.leb_gt in Hd].
  destruct (Qleb (Policy.coverage_amount policy) 0) eqn:Hc;
    [split; [done|]; by intros (_ & Hc' & _)|].
  destruct (Qleb (Policy.premium policy) 0) eqn:Hp;
    [split; [done|]; by intros (_ & _ & Hp' & _)|].
  destruct (days _ _ <? 18 * 365)%Z eqn:Ha;
    [apply Z.ltb_lt in Ha; split; [done|lia]|apply Z.ltb_ge in Ha].
  done.
Qed.

Lemma claim_verdict_Ok claim policy :
  claim_verdict claim policy = Ok tt ↔ claim_conditions claim policy.
Proof.
  unfold claim_verdict, claim_conditions.
  destruct (Claim.date_of_incident claim <? Policy.start_date policy)%Z
    eqn:H1; [apply Z.ltb_lt in H1; split; [done|lia]|apply Z.ltb_ge in H1].
  destruct (Policy.end_date policy <? Claim.date_of_incident claim)%Z
    eqn:H2; [apply Z.ltb_lt in H2; split; [done|lia]|apply Z.ltb_ge in H2].
  simpl.
  destruct (Qleb (Claim.amount claim) 0) eqn:H3;
    [split; [done|]; by intros (_ & _ & H3' & _)|].
  destruct (Qgtb (Claim.amount claim) (Policy.coverage_amount policy)) eqn:H4;
    [split; [done|]; by intros (_ & _ & _ & H4' & _)|].
  simpl.
  destruct (Claim.date_submitted claim <? Claim.date_of_incident claim)%Z
    eqn:H5; [apply Z.ltb_lt in H5; split; [done|lia]|apply Z.ltb_ge in H5].
  destruct (30 <? days _ _)%Z eqn:H6;
    [apply Z.ltb_lt in H6; split; [done|lia]|apply Z.ltb_ge in H6].
  done.
Qed.





Lemma updated_policyholder_Ok now now' name contact_number email
    date_of_birth holder :
  (updated_policyholder now now' name contact_number email date_of_birth
     holder).2 = Ok tt →
  (updated_policyholder now now' name contact_number email date_of_birth
     holder).1
  = holder_with name contact_number email date_of_birth holder.
Proof.
  unfold updated_policyholder, holder_with, checked.
  destruct (truthy name), (truthy contact_number) as [c|],
    (truthy email) as [e|], date_of_birth as [d|]; simpl;
    try destruct (phone_verdict c) as [[]|?]; simpl;
    try destruct (email_verdict e) as [[]|?]; simpl;
    try destruct (date_of_birth_verdict now now' d) as [[]|?]; simpl;
    done.
Qed.

(** X13.  When [update_policyholder] returns on a stored holder, the
    stored record is the former one with every given field assigned (an
    empty string counting as not given) and the other fields, the id
    among them, as they were; policies and claims are as they were. *)
Theorem update_policyholder_on_return (now now' : datetime) (k : string)
    (name contact_number email : option string)
    (date_of_birth : option datetime) (s : CMS) (holder : Policyholder.t) :
  policyholders s !! k = Some holder →
  let r := update_policyholder now now' k name contact_number email
             date_of_birth s in
  r.2 = Ok tt →
  r.1 = set_policyholders
          (<[k := holder_with name contact_number email date_of_birth holder]>
             (policyholders s)) s.
Proof.
  intros Hk r. subst r.
  rewrite (update_policyholder_known _ _ _ _ _ _ _ _ _ Hk). simpl.
  intros Hok. by rewrite updated_policyholder_Ok.
Qed.

Lemma update_policyholder_on_return_witness :
  (update_policyholder today today "PH001" (Some "Jane Doe") (Some "")
     (Some "jane@example.com") None store_claim).1
  = set_policyholders
      (<["PH001" := Policyholder.set_email "jane@example.com"
                      (Policyholder.set_name "Jane Doe" PH001)]>
         (policyholders store_claim)) store_claim.
Proof.
  apply (update_policyholder_on_return today today "PH001" (Some "Jane Doe")
           (Some "") (Some "jane@example.com") None store_claim PH001);
    by_computation.
Defined.

(** ** The order of the cascades *)

Lemma delete_all_ext {V} (l l' : list string) (m : gmap string V) :
  (∀ k, k ∈ l ↔ k ∈ l') → delete_all l m = delete_all l' m.
Proof.
  intros H. apply map_eq. intros k. rewrite !lookup_delete_all.
  destruct (decide (k ∈ l)) as [Hin|Hin], (decide (k ∈ l')) as [Hin'|Hin'];
    try done; by apply H in Hin || by apply H in Hin'.
Qed.

(** X14.  The two cascades do not depend on the order in which the ids
    to delete are visited: run over any rearrangement of the list that
    the comprehension builds, the loop of [delete_policy] and the loop of
    [delete_policyholder] leave the store and give the answer of the
    operation itself.  In particular the iteration order of the
    dictionary plays no part. *)
Theorem cascade_order_independent (s : CMS) (k : string) :
  (∀ policy l,
     policies s !! k = Some policy →
     let s1 := set_policies (delete k (policies s)) s in
     l ≡ₚ keys_where (is_claim_on k) (claims s1) →
     for_each l delete_claim s1 = delete_policy k s)
  ∧ (∀ holder l,
       policyholders s !! k = Some holder →
       let s1 := set_policyholders (delete k (policyholders s)) s in
       l ≡ₚ keys_where (is_policy_of k) (policies s1) →
       for_each l delete_policy s1 = delete_policyholder k s).
Proof.
  split.
  - intros policy l Hk s1 Hperm.
    assert (delete_policy k s
            = for_each (keys_where (is_claim_on k) (claims s1)) delete_claim s1)
      as -> by (unfold delete_policy; step; by rewrite Hk).
    assert (∀ j, j ∈ l ↔ j ∈ keys_where (is_claim_on k) (claims s1)) as Hin
      by (intros j; by rewrite Hperm).
    rewrite !for_each_delete_claim.
    + by rewrite (delete_all_ext _ _ _ Hin).
    + apply NoDup_keys_where.
    + intros j (c & Hc & _)%elem_of_keys_where. eauto.
    + rewrite Hperm. apply NoDup_keys_where.
    + intros j (c & Hc & _)%Hin%elem_of_keys_where. eauto.
  - intros holder l Hk s1 Hperm.
    assert (delete_policyholder k s
            = for_each (keys_where (is_policy_of k) (policies s1))
                delete_policy s1)
      as -> by (unfold delete_policyholder; step; by rewrite Hk).
    assert (∀ j, j ∈ l ↔ j ∈ keys_where (is_policy_of k) (policies s1)) as Hin
      by (intros j; by rewrite Hperm).
    rewrite !for_each_delete_policy.
    + rewrite (delete_all_ext _ _ _ Hin).
      rewrite (without_ext _ (λ claim,
                 bool_decide (Claim.policy_id claim
                              ∈ keys_where (is_policy_of k) (policies s1))));
        [done|].
      intros j c _. apply bool_decide_ext, Hin.
    + apply NoDup_keys_where.
    + intros j (p & Hp & _)%elem_of_keys_where. eauto.
    + rewrite Hperm. apply NoDup_keys_where.
    + intros j (p & Hp & _)%Hin%elem_of_keys_where. eauto.
Qed.

Lemma cascade_order_independent_witness :
  let s1 := set_policyholders
              (delete "PH001" (policyholders store_two_policies))
              store_two_policies in
  for_each (reverse (keys_where (is_policy_of "PH001") (policies s1)))
    delete_policy s1
  = delete_policyholder "PH001" store_two_policies.
Proof.
  destruct (cascade_order_independent store_two_policies "PH001")
    as [_ Hholder].
  apply (Hholder PH001); [by_computation|apply reverse_Permutation].
Defined.

(** * Properties of the earlier engines *)

(** ** Closed claims in the earlier engines *)

Lemma CRUD_update_claim_unknown claim_id description amount status
    (s : CRUD.CMS) :
  CRUD.claims s !! claim_id = None →
  CRUD.update_claim claim_id description amount status s
  = (s, Raise (ValidationError (ClaimMissing claim_id))).
Proof. intros H. unfold CRUD.update_claim. step. by rewrite H. Qed.

Lemma CRUD_set_claims_set_claims m m' (s : CRUD.CMS) :
  CRUD.set_claims m (CRUD.set_claims m' s) = CRUD.set_claims m s.
Proof. done. Qed.

Lemma CRUD_set_claims_id k c (s : CRUD.CMS) :
  CRUD.claims s !! k = Some c →
  CRUD.set_claims (<[k := c]> (CRUD.claims s)) s = s.
Proof. intros H. rewrite (insert_id _ _ _ H). by destruct s. Qed.

Lemma bind_bind {St A B C} (m : M St A) (f : A → M St B) (g : B → M St C)
    (s : St) :
  bind (bind m f) g s = bind m (λ a, bind (f a) g) s.
Proof. unfold bind. by destruct (m s) as [? [?|?]]. Qed.

Lemma CRUD_update_claim_known claim_id description amount status
    (s : CRUD.CMS) claim :
  CRUD.claims s !! claim_id = Some claim →
  let r := CRUD_updated_claim (CRUD.policies s) description amount status
             claim in
  CRUD.update_claim claim_id description amount status s
  = (CRUD.set_claims (<[claim_id := r.1]> (CRUD.claims s)) s, r.2).
Proof.
  intros H r. subst r.
  unfold CRUD.update_claim, CRUD_updated_claim, CRUD.setattr_claim.
  step. rewrite H. simpl.
  destruct (truthy description) as [d|], amount as [a|], status as [st|];
    simpl; step; simpl;
    repeat first
      [ progress simpl
      | rewrite (alter_Some _ _ _ _ H)
      | rewrite alter_insert_eq
      | rewrite lookup_insert_eq
      | rewrite H
      | rewrite bind_bind
      | rewrite bind_subscript
      | rewrite bind_raise_if
      | rewrite bind_modify
      | rewrite CRUD_set_claims_set_claims
      | rewrite (CRUD_set_claims_id _ _ _ H)
      | match goal with
        | |- context [match ?m !! ?k with _ => _ end] =>
            destruct (m !! k) eqn:?
        | |- context [if ?b then _ else _] => destruct b eqn:?
        end
      | progress unfold modify ];
    done.
Qed.

(** X15.  In the engine of [SCMS_CRUD.py] the status of a closed claim is
    final: after any call of [update_claim], on any id and with any
    arguments, a claim that was stored with status Closed is still stored
    with status Closed; and a call that gives a status for it raises. *)
Theorem CRUD_closed_status_is_final (s : CRUD.CMS) (k : string)
    (claim : Claim.t) :
  CRUD.claims s !! k = Some claim →
  Claim.status claim = CLOSED →
  (∀ claim_id description amount status,
     ∃ claim',
       CRUD.claims
         (CRUD.update_claim claim_id description amount status s).1 !! k
       = Some claim'
       ∧ Claim.status claim' = CLOSED)
  ∧ (∀ description amount status,
       ∃ e, (CRUD.update_claim k description amount (Some status) s).2
            = Raise e).
Proof.
  intros Hk Hclosed.
  assert (∀ description amount status,
    let r := CRUD_updated_claim (CRUD.policies s) description amount status
               claim in
    Claim.status r.1 = CLOSED ∧ (is_Some status → ∃ e, r.2 = Raise e)) as Hr.
  { intros description amount status. unfold CRUD_updated_claim.
    destruct (truthy description), amount as [a|], status as [st|]; simpl;
      rewrite ?Hclosed; simpl;
      repeat (match goal with
              | |- context [match ?m !! ?j with _ => _ end] =>
                  destruct (m !! j)
              | |- context [if ?b then _ else _] => destruct b
              end; simpl; rewrite ?Hclosed; simpl);
      (split; [done|]); try (intros _; by eauto); by intros [? ?]. }
  split.
  - intros claim_id description amount status.
    destruct (CRUD.claims s !! claim_id) as [c|] eqn:Hid.
    + rewrite (CRUD_update_claim_known _ _ _ _ _ _ Hid). simpl.
      destruct (decide (claim_id = k)) as [->|Hne].
      * rewrite lookup_insert_eq. eexists. split; [done|].
        assert (c = claim) as -> by congruence. apply Hr.
      * rewrite lookup_insert_ne by done. eauto.
    + rewrite CRUD_update_claim_unknown by done. eauto.
  - intros description amount status.
    rewrite (CRUD_update_claim_known _ _ _ _ _ _ Hk). simpl.
    apply Hr. eauto.
Qed.

Lemma CRUD_closed_status_is_final_witness :
  (∃ claim',
     CRUD.claims
       (CRUD.update_claim "CL001" (Some "Rewritten") (Some 1%Q)
          (Some APPROVED) store_closed_crud).1 !! "CL001" = Some claim'
     ∧ Claim.status claim' = CLOSED)
  ∧ ∃ e, (CRUD.update_claim "CL001" None None (Some APPROVED)
            store_closed_crud).2 = Raise e.
Proof.
  destruct (CRUD_closed_status_is_final store_closed_crud "CL001"
              (Claim.set_status CLOSED CL001)) as [Hfinal Hraise];
    [by_computation..|].
  split; [apply Hfinal|apply Hraise].
Defined.

Lemma LLD_update_claim_status_eq claim_id new_status (s : CRUD.CMS) :
  LLD.update_claim_status claim_id new_status s
  = match CRUD.claims s !! claim_id with
    | None => (s, Raise (ValidationError (ClaimMissing claim_id)))
    | Some claim =>
        if CRUD.status_eqb (Claim.status claim) CLOSED
        then (s, Raise (ValidationError ClosedClaim))
        else (CRUD.set_claims
                (<[claim_id := Claim.set_status new_status claim]>
                   (CRUD.claims s)) s, Ok tt)
    end.
Proof.
  unfold LLD.update_claim_status, CRUD.setattr_claim. step.
  destruct (CRUD.claims s !! claim_id) as [c|] eqn:H; simpl; [|done].
  destruct (CRUD.status_eqb (Claim.status c) CLOSED); [done|].
  step. unfold modify. by rewrite (alter_Some _ _ _ _ H).
Qed.

(** X16.  In the engine of [SCMS_LLD.py] a closed claim is frozen:
    [update_claim_status] on it raises "Cannot update a closed claim" and
    leaves the store as it was, and after any sequence of status updates,
    on any ids, the closed claim is stored exactly as it was. *)
Theorem LLD_closed_claim_is_frozen (s : CRUD.CMS) (k : string)
    (claim : Claim.t) :
  CRUD.claims s !! k = Some claim →
  Claim.status claim = CLOSED →
  (∀ new_status,
     LLD.update_claim_status k new_status s
     = (s, Raise (ValidationError ClosedClaim)))
  ∧ (∀ calls, CRUD.claims (LLD_exec calls s) !! k = Some claim).
Proof.
  intros Hk Hclosed. split.
  - intros new_status. by rewrite LLD_update_claim_status_eq, Hk, Hclosed.
  - intros calls. revert s Hk.
    induction calls as [|[i st] calls IH]; intros s Hk; [done|].
    simpl. apply IH. rewrite LLD_update_claim_status_eq.
    destruct (CRUD.claims s !! i) as [c|] eqn:Hi; [|done].
    destruct (CRUD.status_eqb (Claim.status c) CLOSED) eqn:Hc; [done|].
    simpl. rewrite lookup_insert_ne; [done|].
    intros ->. assert (c = claim) as -> by congruence.
    by rewrite Hclosed in Hc.
Qed.

Lemma LLD_closed_claim_is_frozen_witness :
  LLD.update_claim_status "CL001" APPROVED store_closed_lld
  = (store_closed_lld, Raise (ValidationError ClosedClaim))
  ∧ CRUD.claims
      (LLD_exec [("CL001", SUBMITTED); ("CL404", APPROVED)] store_closed_lld)
      !! "CL001"
    = Some (Claim.set_status CLOSED CL001).
Proof.
  destruct (LLD_closed_claim_is_frozen store_closed_lld "CL001"
              (Claim.set_status CLOSED CL001)) as [Hraise Hfrozen];
    [by_computation..|].
  split; [apply Hraise|apply Hfrozen].
Defined.

(** ** What the earlier engine keeps *)

Section Keeps.
Context {St : Type} (P : St → Prop).

Lemma keeps_ret {A} (a : A) : keeps P (ret a).
Proof. by intros s Hs. Qed.

Lemma keeps_gets {A} (f : St → A) : keeps P (gets f).
Proof. by intros s Hs. Qed.

Lemma keeps_contains {V} (d : St → gmap string V) k : keeps P (contains d k).
Proof. by intros s Hs. Qed.

Lemma keeps_subscript {V} (d : St → gmap string V) k :
  keeps P (subscript d k).
Proof. intros s Hs. unfold subscript. by destruct (d s !! k). Qed.

Lemma keeps_raise_if b e : keeps P (raise_if b e).
Proof. intros s Hs. by destruct b. Qed.

Lemma keeps_modify (g : St → St) : (∀ s, P s → P (g s)) → keeps P (modify g).
Proof. intros Hg s Hs. by apply Hg. Qed.

Lemma keeps_bind {A B} (m : M St A) (f : A → M St B) :
  keeps P m → (∀ a, keeps P (f a)) → keeps P (bind m f).
Proof.
  intros Hm Hf s Hs. unfold bind. specialize (Hm s Hs).
  destruct (m s) as [s' [a|e]]; simpl in *; [by apply Hf|done].
Qed.

(** After [if b: raise e], the rest runs only when [b] is false. *)
Lemma keeps_guard {B} b e (m : M St B) :
  (b = false → keeps P m) → keeps P (bind (raise_if b e) (λ _, m)).
Proof. intros Hm s Hs. rewrite bind_raise_if. destruct b; [done|by apply Hm]. Qed.

Lemma keeps_when_some {A} (o : option A) (f : A → M St unit) :
  (∀ a, o = Some a → keeps P (f a)) → keeps P (when_some o f).
Proof. intros Hf. destruct o; [by apply Hf|apply keeps_ret]. Qed.

Lemma keeps_for_each {A} (l : list A) (f : A → M St unit) :
  (∀ a, keeps P (f a)) → keeps P (for_each l f).
Proof.
  intros Hf. induction l as [|a l IH]; [apply keeps_ret|].
  simpl. by apply keeps_bind.
Qed.
End Keeps.

Lemma all_alter {V} (Q : V → Prop) (f : V → V) k (m : gmap string V) :
  (∀ v, Q v → Q (f v)) →
  (∀ j v, m !! j = Some v → Q v) →
  ∀ j v, alter f k m !! j = Some v → Q v.
Proof.
  intros Hf Hm j v [[_ (v' & Hv & ->)]|[_ Hv]]%lookup_alter_Some; eauto.
Qed.

Lemma all_insert {V} (Q : V → Prop) k x (m : gmap string V) :
  Q x →
  (∀ j v, m !! j = Some v → Q v) →
  ∀ j v, <[k := x]> m !! j = Some v → Q v.
Proof. intros Hx Hm j v [[_ <-]|[_ Hv]]%lookup_insert_Some; eauto. Qed.

Lemma all_delete {V} (Q : V → Prop) k (m : gmap string V) :
  (∀ j v, m !! j = Some v → Q v) →
  ∀ j v, delete k m !! j = Some v → Q v.
Proof. intros Hm j v [_ Hv]%lookup_delete_Some. eauto. Qed.

Lemma CRUD_delete_claim_keeps k : keeps CRUD.sound (CRUD.delete_claim k).
Proof.
  unfold CRUD.delete_claim.
  apply keeps_bind; [apply keeps_contains|intros known].
  apply keeps_guard. intros _. apply keeps_modify.
  intros s (Hh & Hp & Hc). split; [|split]; try assumption.
  simpl. by apply all_delete.
Qed.

Lemma CRUD_delete_policy_keeps k : keeps CRUD.sound (CRUD.delete_policy k).
Proof.
  unfold CRUD.delete_policy.
  apply keeps_bind; [apply keeps_contains|intros known].
  apply keeps_guard. intros _.
  apply keeps_bind; [|intros _].
  { apply keeps_modify. intros s (Hh & Hp & Hc). split; [|split]; try assumption.
    simpl. by apply all_delete. }
  apply keeps_bind; [apply keeps_gets|intros l].
  apply keeps_for_each, CRUD_delete_claim_keeps.
Qed.

Lemma CRUD_run_keeps o : keeps CRUD.sound (CRUD.run o).
Proof.
  destruct o; simpl.
  - (* create_policyholder *)
    unfold CRUD.create_policyholder, _validate_email, _validate_phone_number.
    apply keeps_guard. intros He%negb_false_iff.
    apply keeps_guard. intros Hp%negb_false_iff.
    apply keeps_bind; [apply keeps_contains|intros dup].
    apply keeps_guard. intros _. apply keeps_modify.
    intros s (Hh & Hpol & Hc). split; [|split]; try assumption.
    cbn -[re_match]. by apply all_insert.
  - (* update_policyholder *)
    unfold CRUD.update_policyholder, CRUD.setattr_policyholder,
      _validate_email, _validate_phone_number.
    apply keeps_bind; [apply keeps_contains|intros known].
    apply keeps_guard. intros _.
    apply keeps_bind; [|intros _].
    { apply keeps_when_some. intros v _. apply keeps_modify.
      intros s (Hh & Hpol & Hc). split; [|split]; try assumption.
      cbn -[re_match]. by apply all_alter. }
    apply keeps_bind; [|intros _].
    { apply keeps_when_some. intros v _.
      apply keeps_guard. intros Hv%negb_false_iff. apply keeps_modify.
      intros s (Hh & Hpol & Hc). split; [|split]; try assumption.
      cbn -[re_match]. apply all_alter; [|done].
      intros h [He _]. by split. }
    apply keeps_when_some. intros v _.
    apply keeps_guard. intros Hv%negb_false_iff. apply keeps_modify.
    intros s (Hh & Hpol & Hc). split; [|split]; try assumption.
    cbn -[re_match]. apply all_alter; [|done].
    intros h [_ Hp]. by split.
  - (* delete_policyholder *)
    unfold CRUD.delete_policyholder.
    apply keeps_bind; [apply keeps_contains|intros known].
    apply keeps_guard. intros _.
    apply keeps_bind; [|intros _].
    { apply keeps_modify. intros s (Hh & Hp & Hc). split; [|split]; try assumption.
      cbn -[re_match]. by apply all_delete. }
    apply keeps_bind; [apply keeps_gets|intros l].
    apply keeps_for_each, CRUD_delete_policy_keeps.
  - (* create_policy *)
    unfold CRUD.create_policy.
    apply keeps_bind; [apply keeps_contains|intros known].
    apply keeps_guard. intros _.
    apply keeps_bind; [apply keeps_contains|intros dup].
    apply keeps_guard. intros _.
    apply keeps_guard. intros _.
    apply keeps_guard. intros Hcov. apply keeps_modify.
    intros s (Hh & Hp & Hc). split; [|split]; try assumption.
    simpl. by apply all_insert.
  - (* update_policy *)
    unfold CRUD.update_policy, CRUD.setattr_policy.
    apply keeps_bind; [apply keeps_contains|intros known].
    apply keeps_guard. intros _.
    apply keeps_bind; [|intros _].
    { apply keeps_when_some. intros v _. apply keeps_modify.
      intros s (Hh & Hp & Hc). split; [|split]; try assumption.
      simpl. by apply all_alter. }
    apply keeps_bind; [|intros _].
    { apply keeps_when_some. intros v _. apply keeps_modify.
      intros s (Hh & Hp & Hc). split; [|split]; try assumption.
      simpl. by apply all_alter. }
    apply keeps_bind; [|intros _].
    { apply keeps_when_some. intros v _. apply keeps_modify.
      intros s (Hh & Hp & Hc). split; [|split]; try assumption.
      simpl. by apply all_alter. }
    apply keeps_bind; [|intros _].
    { apply keeps_when_some. intros v _.
      apply keeps_guard. intros Hv. apply keeps_modify.
      intros s (Hh & Hp & Hc). split; [|split]; try assumption.
      simpl. by apply all_alter. }
    apply keeps_bind; [apply keeps_subscript|intros policy].
    apply keeps_raise_if.
  - (* delete_policy *)
    apply CRUD_delete_policy_keeps.
  - (* create_claim *)
    unfold CRUD.create_claim.
    apply keeps_bind; [apply keeps_contains|intros known].
    apply keeps_guard. intros _.
    apply keeps_bind; [apply keeps_contains|intros dup].
    apply keeps_guard. intros _.
    apply keeps_bind; [apply keeps_subscript|intros policy].
    apply keeps_guard. intros _.
    apply keeps_guard. intros [Hpos _]%orb_false_iff.
    apply keeps_modify.
    intros s (Hh & Hp & Hc). split; [|split]; try assumption.
    simpl. by apply all_insert.
  - (* update_claim *)
    unfold CRUD.update_claim, CRUD.setattr_claim.
    apply keeps_bind; [apply keeps_contains|intros known].
    apply keeps_guard. intros _.
    apply keeps_bind; [|intros _].
    { apply keeps_when_some. intros v _. apply keeps_modify.
      intros s (Hh & Hp & Hc). split; [|split]; try assumption.
      simpl. by apply all_alter. }
    apply keeps_bind; [|intros _].
    { apply keeps_when_some. intros v _.
      apply keeps_bind; [apply keeps_subscript|intros claim].
      apply keeps_bind; [apply keeps_subscript|intros policy].
      apply keeps_guard. intros [Hpos _]%orb_false_iff.
      apply keeps_modify.
      intros s (Hh & Hp & Hc). split; [|split]; try assumption.
      simpl. by apply all_alter. }
    apply keeps_when_some. intros v _.
    apply keeps_bind; [apply keeps_subscript|intros claim].
    apply keeps_guard. intros _. apply keeps_modify.
    intros s (Hh & Hp & Hc). split; [|split]; try assumption.
    simpl. by apply all_alter.
  - (* delete_claim *)
    apply CRUD_delete_claim_keeps.
Qed.


(** * Properties of the boundary of the later engine *)

(** X18.  The values of the status enumeration round-trip: looking a
    member up by its value gives the member back, and a string that the
    lookup accepts is the value of the member found, so that the five
    values are distinct and any other string, also one that differs only
    in case, is refused. *)
Theorem status_value_round_trip :
  (∀ s, status_of_value (status_value s) = Some s)
  ∧ (∀ v s, status_of_value v = Some s → status_value s = v)
  ∧ (∀ v, (∀ s, status_value s ≠ v) → status_of_value v = None).
Proof.
  split; [|split].
  - by intros [].
  - intros v s. unfold status_of_value, status_members. cbn -[String.eqb].
    repeat (match goal with
            | |- context [String.eqb ?a v] =>
                destruct (String.eqb_spec a v) as [<-|?]
            end; [by intros [= <-]|]).
    done.
  - intros v Hv. unfold status_of_value, status_members. cbn -[String.eqb].
    repeat (match goal with
            | |- context [String.eqb ?a v] =>
                destruct (String.eqb_spec a v) as [Heq|?]
            end;
            [exfalso;
             first [ by apply (Hv SUBMITTED) | by apply (Hv UNDER_REVIEW)
                   | by apply (Hv APPROVED) | by apply (Hv REJECTED)
                   | by apply (Hv CLOSED) ]|]).
    done.
Qed.

Lemma status_value_round_trip_witness :
  status_value UNDER_REVIEW = "Under Review"
  ∧ status_of_value "under review" = None.
Proof.
  destruct status_value_round_trip as (_ & Hvalue & Hnone).
  split.
  - apply Hvalue. by_computation.
  - apply Hnone. by intros [].
Defined.

